(** * SafeDeleteQuery: visibility filtering of soft-deleted rows

    A shallow embedding of [safedelete/query.py].  The class
    [SafeDeleteQuery] specialises the host ORM's [sql.Query]; it keeps four
    attributes of its own and overrides [clone], [get_compiler] and
    [set_limits].  The host class is external: it is taken as an interface
    ([HostQuery]) and the methods below are written against it. *)

From Stdlib Require Import ZArith.
From stdpp Require Import gmap strings list fin_maps.

Local Open Scope Z_scope.

(** ** Configuration ([safedelete/config.py])

    The four visibility constants and the name of the deleted-marker field
    are imported from the configuration module; they are plain integers and
    a string there, and are parameters here. *)

Class Config := {
  DELETED_INVISIBLE : Z;
  DELETED_VISIBLE_BY_FIELD : Z;
  DELETED_VISIBLE : Z;
  DELETED_ONLY_VISIBLE : Z;
  FIELD_NAME : string;
}.

(** The four constants name four different modes. *)
Definition modes_distinct {cfg : Config} : Prop :=
  NoDup [DELETED_INVISIBLE; DELETED_VISIBLE_BY_FIELD;
         DELETED_VISIBLE; DELETED_ONLY_VISIBLE].

(** ** Conditions

    A [Q] object built from one keyword, [key=value], whose value is a
    boolean: the only shape of [Q] this module builds. *)

Record Q := mkQ { q_lookup : string; q_value : bool }.

#[global] Instance Q_eq_dec : EqDecision Q.
Proof. solve_decision. Defined.

(** ** The host query class

    [H] is the state of the inherited [sql.Query] part of an object, [A] what
    is passed on to the host's [get_compiler], [C] the compiler it returns.
    [where_] reads the condition set the host keeps. *)

Class HostQuery (H A C : Type) := {
  can_filter : H → bool;
  add_q : Q → H → H;
  where_ : H → list Q;
  super_clone : H → H;
  super_get_compiler : A → H → C;
  super_set_limits : option Z → option Z → H → H;
}.

(** What the theorems about the condition set and about slicing expect of a
    host: [add_q] adds its condition at the end and does not slice, cloning
    copies conditions and slicing state, limiting drops no condition. *)

Class HostLaws {H A C : Type} (host : HostQuery H A C) : Prop := {
  where_add_q : ∀ q h, where_ (add_q q h) = where_ h ++ [q];
  where_super_clone : ∀ h, where_ (super_clone h) = where_ h;
  where_super_set_limits : ∀ low high h q,
    q ∈ where_ h → q ∈ where_ (super_set_limits low high h);
  can_filter_add_q : ∀ q h, can_filter (add_q q h) = can_filter h;
  can_filter_super_clone : ∀ h, can_filter (super_clone h) = can_filter h;
}.

(** Python's [x in (a, b, ...)] on integers: some element equals [x]. *)
Definition in_tuple (x : Z) (t : list Z) : bool := existsb (Z.eqb x) t.

Section SafeDelete.
Context {cfg : Config} {H A C : Type} {host : HostQuery H A C}.

(** ** The object

    [base] is the inherited part.  The two attributes with a class-level
    default ([_safedelete_filter_applied = False],
    [_safedelete_force_visibility = None]) and the two that are only
    annotated ([int] and [str]) are fields; [None] is the Python [None]. *)

Record SafeDeleteQuery := mkSafeDeleteQuery {
  _safedelete_filter_applied : bool;
  _safedelete_force_visibility : option Z;
  _safedelete_visibility : Z;
  _safedelete_visibility_field : string;
  base : H;
}.

(** Attribute assignments. *)
Definition set_force_visibility (v : option Z) (self : SafeDeleteQuery) :=
  {| _safedelete_filter_applied := _safedelete_filter_applied self;
     _safedelete_force_visibility := v;
     _safedelete_visibility := _safedelete_visibility self;
     _safedelete_visibility_field := _safedelete_visibility_field self;
     base := base self |}.

Definition set_filter_applied (b : bool) (self : SafeDeleteQuery) :=
  {| _safedelete_filter_applied := b;
     _safedelete_force_visibility := _safedelete_force_visibility self;
     _safedelete_visibility := _safedelete_visibility self;
     _safedelete_visibility_field := _safedelete_visibility_field self;
     base := base self |}.

(** A call of an inherited method that works on the host part only. *)
Definition on_base (f : H → H) (self : SafeDeleteQuery) :=
  {| _safedelete_filter_applied := _safedelete_filter_applied self;
     _safedelete_force_visibility := _safedelete_force_visibility self;
     _safedelete_visibility := _safedelete_visibility self;
     _safedelete_visibility_field := _safedelete_visibility_field self;
     base := f (base self) |}.

(** A query as the queryset layer hands it out: class defaults for the
    flag and the override, the manager's mode and keyword assigned. *)
Definition new_query (visibility : Z) (field : string) (h : H) :=
  {| _safedelete_filter_applied := false;
     _safedelete_force_visibility := None;
     _safedelete_visibility := visibility;
     _safedelete_visibility_field := field;
     base := h |}.

(** ** [check_field_filter(self, **kwargs)] (lines 27-37)

    [kwargs] is a dict with string keys; its values are not looked at. *)
Definition check_field_filter {V} (kwargs : gmap string V)
    (self : SafeDeleteQuery) : SafeDeleteQuery :=
  if (_safedelete_visibility self =? DELETED_VISIBLE_BY_FIELD)
     && bool_decide (is_Some (kwargs !! _safedelete_visibility_field self))
  then set_force_visibility (Some DELETED_VISIBLE) self
  else self.

(** Lines 47-50: the override when it is not [None], else the mode. *)
Definition effective_visibility (self : SafeDeleteQuery) : Z :=
  match _safedelete_force_visibility self with
  | Some force_visibility => force_visibility
  | None => _safedelete_visibility self
  end.

(** The condition of lines 55-60. *)
Definition isnull_q (b : bool) : Q := mkQ (FIELD_NAME +:+ "__isnull") b.

(** ** [_filter_visibility(self)] (lines 39-62) *)
Definition _filter_visibility (self : SafeDeleteQuery) : SafeDeleteQuery :=
  if negb (can_filter (base self)) || _safedelete_filter_applied self
  then self
  else
    let visibility := effective_visibility self in
    if in_tuple visibility
         [DELETED_INVISIBLE; DELETED_VISIBLE_BY_FIELD; DELETED_ONLY_VISIBLE]
    then
      set_filter_applied true
        (on_base
           (add_q (isnull_q (in_tuple visibility
                      [DELETED_INVISIBLE; DELETED_VISIBLE_BY_FIELD])))
           self)
    else self.

(** ** [clone(self)] (lines 64-71)

    The new object comes from the host's [clone]; the three attributes are
    assigned, and so is the override: [hasattr] finds the class-level
    default when the instance has none, so line 70 always runs. *)
Definition clone (self : SafeDeleteQuery) : SafeDeleteQuery :=
  {| _safedelete_filter_applied := _safedelete_filter_applied self;
     _safedelete_force_visibility := _safedelete_force_visibility self;
     _safedelete_visibility := _safedelete_visibility self;
     _safedelete_visibility_field := _safedelete_visibility_field self;
     base := super_clone (base self) |}.

(** ** [get_compiler(self, *args, **kwargs)] (lines 73-76)

    Returns the compiler and the object as the call leaves it. *)
Definition get_compiler (args : A) (self : SafeDeleteQuery)
    : C * SafeDeleteQuery :=
  let self := _filter_visibility self in
  (super_get_compiler args (base self), self).

(** ** [set_limits(self, low, high)] (lines 78-81) *)
Definition set_limits (low high : option Z) (self : SafeDeleteQuery)
    : SafeDeleteQuery :=
  let self := _filter_visibility self in
  on_base (super_set_limits low high) self.

(** ** Sequences of calls on one chain of queries

    The methods of the class, and the host's [add_q] that a filter call of
    the queryset layer ends in.  [CallClone] continues on the clone, as
    chained queryset calls do. *)
Inductive call {V : Type} :=
| CallCheckFieldFilter (kwargs : gmap string V)
| CallFilterVisibility
| CallClone
| CallGetCompiler (args : A)
| CallSetLimits (low high : option Z)
| CallAddQ (q : Q).
Arguments call : clear implicits.

Definition exec {V} (c : call V) (self : SafeDeleteQuery)
    : SafeDeleteQuery * list C :=
  match c with
  | CallCheckFieldFilter kwargs => (check_field_filter kwargs self, [])
  | CallFilterVisibility => (_filter_visibility self, [])
  | CallClone => (clone self, [])
  | CallGetCompiler args =>
      let '(compiler, self) := get_compiler args self in (self, [compiler])
  | CallSetLimits low high => (set_limits low high self, [])
  | CallAddQ q => (on_base (add_q q) self, [])
  end.

(** The object after the calls, and the compilers handed out on the way. *)
Fixpoint run {V} (cs : list (call V)) (self : SafeDeleteQuery)
    : SafeDeleteQuery * list C :=
  match cs with
  | [] => (self, [])
  | c :: cs =>
      let '(self, out) := exec c self in
      let '(self, outs) := run cs self in
      (self, out ++ outs)
  end.

(** The call is a [check_field_filter] whose [kwargs] have the key [field]. *)
Definition passes {V} (field : string) (c : call V) : bool :=
  match c with
  | CallCheckFieldFilter kwargs => bool_decide (is_Some (kwargs !! field))
  | _ => false
  end.

(** No call in [cs] passes the keyword. *)
Definition never_passed {V} (field : string) (cs : list (call V)) : bool :=
  forallb (λ c, negb (passes field c)) cs.

(** What a caller can see of a query: its conditions and slicing state
    (the host part) and whether the filter went in. *)
Definition observe (r : SafeDeleteQuery * list C) : H * bool * list C :=
  (base r.1, _safedelete_filter_applied r.1, r.2).

(** ** Comparing a VISIBLE_BY_FIELD query with the other modes

    The VISIBLE_BY_FIELD query and the INVISIBLE query made from the same
    host query and put through the same calls [cs] show the same to a
    caller. *)
Definition behaves_as_invisible {V} (field : string) (h : H)
    (cs : list (call V)) : Prop :=
  observe (run cs (new_query DELETED_VISIBLE_BY_FIELD field h))
  = observe (run cs (new_query DELETED_INVISIBLE field h)).

(** The VISIBLE_BY_FIELD query and the VISIBLE query made from the same
    host query and put through the same calls [pre] and then a
    [check_field_filter] with [kwargs] show the same to a caller under
    all further calls. *)
Definition behaves_as_visible_after {V} (field : string) (h : H)
    (pre : list (call V)) (kwargs : gmap string V) : Prop :=
  ∀ cs : list (call V),
    observe (run cs (run (pre ++ [CallCheckFieldFilter kwargs])
                       (new_query DELETED_VISIBLE_BY_FIELD field h)).1)
    = observe (run cs (run (pre ++ [CallCheckFieldFilter kwargs])
                         (new_query DELETED_VISIBLE field h)).1).

(** The effective mode is VISIBLE and no call can change that: the
    override is VISIBLE, or it is unset on a query of mode VISIBLE. *)
Definition always_visible (self : SafeDeleteQuery) : Prop :=
  _safedelete_force_visibility self = Some DELETED_VISIBLE
  ∨ (_safedelete_force_visibility self = None
     ∧ _safedelete_visibility self = DELETED_VISIBLE).

(** Two objects that show the same to a caller. *)
Definition same_view (self other : SafeDeleteQuery) : Prop :=
  base self = base other
  ∧ _safedelete_filter_applied self = _safedelete_filter_applied other.

(** A VISIBLE_BY_FIELD query on which the trigger has not fired, next to
    an INVISIBLE query, both with the keyword [field]. *)
Definition untriggered_pair (field : string)
    (self other : SafeDeleteQuery) : Prop :=
  same_view self other
  ∧ _safedelete_visibility_field self = field
  ∧ _safedelete_visibility_field other = field
  ∧ _safedelete_force_visibility self = None
  ∧ _safedelete_force_visibility other = None
  ∧ _safedelete_visibility self = DELETED_VISIBLE_BY_FIELD
  ∧ _safedelete_visibility other = DELETED_INVISIBLE.

(** A VISIBLE_BY_FIELD query with the keyword [field], triggered or not. *)
Definition by_field (field : string) (self : SafeDeleteQuery) : Prop :=
  _safedelete_visibility self = DELETED_VISIBLE_BY_FIELD
  ∧ _safedelete_visibility_field self = field
  ∧ (_safedelete_force_visibility self = None
     ∨ _safedelete_force_visibility self = Some DELETED_VISIBLE).


(** ** The host alone

    What a call does to a plain host query, a query of the inherited class
    without this class's overrides: [check_field_filter] and
    [_filter_visibility] do not exist there and leave it alone, the other
    calls are the host's own. *)
Definition host_exec {V} (c : call V) (h : H) : H * list C :=
  match c with
  | CallCheckFieldFilter _ => (h, [])
  | CallFilterVisibility => (h, [])
  | CallClone => (super_clone h, [])
  | CallGetCompiler args => (h, [super_get_compiler args h])
  | CallSetLimits low high => (super_set_limits low high h, [])
  | CallAddQ q => (add_q q h, [])
  end.

Fixpoint host_run {V} (cs : list (call V)) (h : H) : H * list C :=
  match cs with
  | [] => (h, [])
  | c :: cs =>
      let '(h, out) := host_exec c h in
      let '(h, outs) := host_run cs h in
      (h, out ++ outs)
  end.

(** The host part of the object a run ends in, and the compilers. *)
Definition view (r : SafeDeleteQuery * list C) : H * list C := (base r.1, r.2).

(** ** Objects in a store

    Queries are objects reached through references.  [getattr] reads an
    attribute of the object at a reference, [setattr] assigns one in
    place. *)
Definition getattr {X} (attr : SafeDeleteQuery → X) (l : nat)
    (σ : gmap nat SafeDeleteQuery) : option X :=
  attr <$> σ !! l.

Definition setattr (assign : SafeDeleteQuery → SafeDeleteQuery) (l : nat)
    (σ : gmap nat SafeDeleteQuery) : gmap nat SafeDeleteQuery :=
  alter assign l σ.

Definition set_visibility (v : Z) (self : SafeDeleteQuery) :=
  {| _safedelete_filter_applied := _safedelete_filter_applied self;
     _safedelete_force_visibility := _safedelete_force_visibility self;
     _safedelete_visibility := v;
     _safedelete_visibility_field := _safedelete_visibility_field self;
     base := base self |}.

Definition set_visibility_field (v : string) (self : SafeDeleteQuery) :=
  {| _safedelete_filter_applied := _safedelete_filter_applied self;
     _safedelete_force_visibility := _safedelete_force_visibility self;
     _safedelete_visibility := _safedelete_visibility self;
     _safedelete_visibility_field := v;
     base := base self |}.

(** [super(SafeDeleteQuery, self).clone()] (line 65): the host makes a new
    object of the same class, at a reference not in use, around its clone
    of the host part.  Which values the host leaves in the four attributes
    of the new object is the host's business: [inherited self] stands for
    them. *)
Definition super_clone_at (inherited : SafeDeleteQuery → SafeDeleteQuery)
    (self : nat) (σ : gmap nat SafeDeleteQuery)
    : option (nat * gmap nat SafeDeleteQuery) :=
  match σ !! self with
  | None => None
  | Some this =>
      let clone := fresh (dom σ) in
      Some (clone,
            <[clone := on_base (λ _, super_clone (base this)) (inherited this)]> σ)
  end.

(** [clone(self)] (lines 64-71) on the store: the assignments of lines
    66-70 read the attribute of [self] and write it on [clone].  The test
    of line 69 holds of every object, the class having a default. *)
Definition clone_at (inherited : SafeDeleteQuery → SafeDeleteQuery)
    (self : nat) (σ : gmap nat SafeDeleteQuery)
    : option (nat * gmap nat SafeDeleteQuery) :=
  '(clone, σ) ← super_clone_at inherited self σ;
  v ← getattr _safedelete_visibility self σ;
  let σ := setattr (set_visibility v) clone σ in
  v ← getattr _safedelete_visibility_field self σ;
  let σ := setattr (set_visibility_field v) clone σ in
  v ← getattr _safedelete_filter_applied self σ;
  let σ := setattr (set_filter_applied v) clone σ in
  v ← getattr _safedelete_force_visibility self σ;
  let σ := setattr (set_force_visibility v) clone σ in
  Some (clone, σ).

(** A method call on the object at [l]: [clone] gives the reference of the
    new object, the other methods work on [self] in place and give [l]
    back. *)
Definition call_at {V} (inherited : SafeDeleteQuery → SafeDeleteQuery)
    (c : call V) (l : nat) (σ : gmap nat SafeDeleteQuery)
    : option (nat * gmap nat SafeDeleteQuery) :=
  match c with
  | CallClone => clone_at inherited l σ
  | _ =>
      match σ !! l with
      | None => None
      | Some self => Some (l, <[l := (exec c self).1]> σ)
      end
  end.

(** Calls on several objects, one after the other, each on its own
    reference. *)
Fixpoint calls_at {V} (inherited : SafeDeleteQuery → SafeDeleteQuery)
    (cs : list (nat * call V)) (σ : gmap nat SafeDeleteQuery)
    : option (gmap nat SafeDeleteQuery) :=
  match cs with
  | [] => Some σ
  | (l, c) :: cs =>
      match call_at inherited c l σ with
      | None => None
      | Some (_, σ) => calls_at inherited cs σ
      end
  end.

(** What a call leaves of the object it is made on: [clone] leaves it as
    it is, the clone being another object. *)
Definition stay {V} (c : call V) (self : SafeDeleteQuery) : SafeDeleteQuery :=
  match c with
  | CallClone => self
  | _ => (exec c self).1
  end.

Fixpoint stays {V} (cs : list (call V)) (self : SafeDeleteQuery)
    : SafeDeleteQuery :=
  match cs with
  | [] => self
  | c :: cs => stays cs (stay c self)
  end.

(** The calls of [cs] that are made on the object at [l], in order. *)
Fixpoint calls_of {V} (l : nat) (cs : list (nat * call V)) : list (call V) :=
  match cs with
  | [] => []
  | (k, c) :: cs =>
      if decide (k = l) then c :: calls_of l cs else calls_of l cs
  end.

End SafeDelete.

Arguments SafeDeleteQuery : clear implicits.
Arguments call : clear implicits.

(** ** A small host to run the class on

    Conditions kept in a list, slicing as a low and a high mark, in the way
    the host ORM's query class keeps them.  It stands in for the inherited
    class when a method is evaluated on a concrete object; the general
    theorems are stated for every host. *)
Module Reference.

Record Query := mkQuery {
  conditions : list Q;
  nothing : bool;
  low_mark : Z;
  high_mark : option Z;
}.

Definition is_sliced (h : Query) : bool :=
  negb (low_mark h =? 0) || bool_decide (is_Some (high_mark h)).

Definition set_high (high : option Z) (h : Query) : Query :=
  match high with
  | None => h
  | Some high =>
      let mark := match high_mark h with
                  | Some m => Z.min m (low_mark h + high)
                  | None => low_mark h + high
                  end in
      mkQuery (conditions h) (nothing h) (low_mark h) (Some mark)
  end.

Definition set_low (low : option Z) (h : Query) : Query :=
  match low with
  | None => h
  | Some low =>
      let mark := match high_mark h with
                  | Some m => Z.min m (low_mark h + low)
                  | None => low_mark h + low
                  end in
      mkQuery (conditions h) (nothing h) mark (high_mark h)
  end.

Definition set_empty_if_closed (h : Query) : Query :=
  if bool_decide (Some (low_mark h) = high_mark h)
  then mkQuery (conditions h) true (low_mark h) (high_mark h)
  else h.

#[export] Instance host : HostQuery Query () Query := {|
  can_filter h := negb (is_sliced h);
  add_q q h := mkQuery (conditions h ++ [q]) (nothing h) (low_mark h) (high_mark h);
  where_ := conditions;
  super_clone h := h;
  super_get_compiler _ h := h;
  super_set_limits low high h := set_empty_if_closed (set_low low (set_high high h));
|}.

(** A configuration with four different constants. *)
#[export] Instance config : Config := {|
  DELETED_INVISIBLE := 10;
  DELETED_VISIBLE_BY_FIELD := 11;
  DELETED_ONLY_VISIBLE := 12;
  DELETED_VISIBLE := 13;
  FIELD_NAME := "deleted";
|}.

(** An unsliced query without conditions. *)
Definition fresh_query : Query := mkQuery [] false 0 None.

(** A sliced one: the first five rows. *)
Definition sliced_query : Query := mkQuery [] false 0 (Some 5).

(** The keyword arguments of a filter call that asks for deleted rows. *)
Definition include_deleted : gmap string bool := {["include_deleted" := true]}.

(** Calls of every method, the trigger among them. *)
Definition some_calls : list (call () bool) :=
  [CallGetCompiler (); CallCheckFieldFilter include_deleted; CallClone;
   CallSetLimits (Some 0) (Some 5); CallFilterVisibility;
   CallAddQ (mkQ "name__isnull" false); CallGetCompiler ()].

End Reference.

(** * Properties *)

Section SafeDeleteFacts.
Context {cfg : Config} {H A C : Type} {host : HostQuery H A C}.
Implicit Types (self : SafeDeleteQuery H) (h : H) (mode : Z).

Lemma in_tuple_true x t : in_tuple x t = true ↔ x ∈ t.
Proof.
  unfold in_tuple. rewrite existsb_exists. split.
  - intros (y & Hy & Heq). apply Z.eqb_eq in Heq. subst. by apply list_elem_of_In.
  - intros Hx. exists x. split; [by apply list_elem_of_In | apply Z.eqb_refl].
Qed.

Lemma in_tuple_false x t : in_tuple x t = false ↔ x ∉ t.
Proof.
  rewrite <- in_tuple_true. destruct (in_tuple x t); split; congruence.
Qed.

Lemma modes_distinct_ne :
  modes_distinct →
  DELETED_INVISIBLE ≠ DELETED_VISIBLE_BY_FIELD
  ∧ DELETED_INVISIBLE ≠ DELETED_VISIBLE
  ∧ DELETED_INVISIBLE ≠ DELETED_ONLY_VISIBLE
  ∧ DELETED_VISIBLE_BY_FIELD ≠ DELETED_VISIBLE
  ∧ DELETED_VISIBLE_BY_FIELD ≠ DELETED_ONLY_VISIBLE
  ∧ DELETED_VISIBLE ≠ DELETED_ONLY_VISIBLE.
Proof.
  unfold modes_distinct. intros Hdist.
  apply NoDup_cons in Hdist as [Hinv Hdist].
  apply NoDup_cons in Hdist as [Hvbf Hdist].
  apply NoDup_cons in Hdist as [Hvis _].
  rewrite !not_elem_of_cons in Hinv. rewrite !not_elem_of_cons in Hvbf.
  rewrite !not_elem_of_cons in Hvis. tauto.
Qed.

(** Decide the membership tests of a goal by cases on the comparisons. *)
Ltac tuple_cases :=
  unfold in_tuple; cbn [existsb];
  repeat match goal with
         | |- context [Z.eqb ?a ?b] => destruct (Z.eqb_spec a b)
         end;
  cbn [orb]; try congruence.

(** The two ways out of [_filter_visibility]. *)
Lemma filter_visibility_cases self :
  _filter_visibility self = self
  ∨ (can_filter (base self) = true
     ∧ _safedelete_filter_applied self = false
     ∧ in_tuple (effective_visibility self)
         [DELETED_INVISIBLE; DELETED_VISIBLE_BY_FIELD; DELETED_ONLY_VISIBLE] = true
     ∧ _filter_visibility self =
         set_filter_applied true (on_base (add_q (isnull_q (in_tuple (effective_visibility self)
                     [DELETED_INVISIBLE; DELETED_VISIBLE_BY_FIELD]))) self)).
Proof.
  unfold _filter_visibility.
  destruct (can_filter (base self)) eqn:Hcan; [| by left].
  destruct (_safedelete_filter_applied self) eqn:Happ; [by left |].
  cbn [negb orb].
  destruct (in_tuple (effective_visibility self) (_ :: _ :: _ :: _)) eqn:Hin;
    [by right | by left].
Qed.

Lemma filter_visibility_guard self :
  can_filter (base self) = false ∨ _safedelete_filter_applied self = true →
  _filter_visibility self = self.
Proof.
  unfold _filter_visibility. intros [-> | ->]; [done |].
  by rewrite orb_true_r.
Qed.

Lemma filter_visibility_open self :
  can_filter (base self) = true →
  _safedelete_filter_applied self = false →
  _filter_visibility self =
    if in_tuple (effective_visibility self)
         [DELETED_INVISIBLE; DELETED_VISIBLE_BY_FIELD; DELETED_ONLY_VISIBLE]
    then set_filter_applied true (on_base (add_q (isnull_q (in_tuple (effective_visibility self)
                     [DELETED_INVISIBLE; DELETED_VISIBLE_BY_FIELD]))) self)
    else self.
Proof. unfold _filter_visibility. by intros -> ->. Qed.

Lemma filter_visibility_attrs self :
  _safedelete_force_visibility (_filter_visibility self)
    = _safedelete_force_visibility self
  ∧ _safedelete_visibility (_filter_visibility self)
    = _safedelete_visibility self
  ∧ _safedelete_visibility_field (_filter_visibility self)
    = _safedelete_visibility_field self.
Proof.
  destruct (filter_visibility_cases self) as [-> | (_ & _ & _ & ->)]; done.
Qed.

Lemma filter_visibility_applied self :
  _safedelete_filter_applied self = true →
  _safedelete_filter_applied (_filter_visibility self) = true.
Proof. intros Happ. rewrite filter_visibility_guard; auto. Qed.

(** [run], one call at a time. *)
Lemma run_cons {V} (c : call A V) cs self :
  run (c :: cs) self
  = ((run cs (exec c self).1).1, (exec c self).2 ++ (run cs (exec c self).1).2).
Proof.
  cbn [run]. destruct (exec c self) as [self1 out].
  cbn [fst snd]. by destruct (run cs self1) as [self2 outs].
Qed.

(** A property of objects that every call keeps holds after any sequence
    of calls. *)
Lemma run_preserves {V} (P : SafeDeleteQuery H → Prop) :
  (∀ (c : call A V) self, P self → P (exec c self).1) →
  ∀ (cs : list (call A V)) self, P self → P (run cs self).1.
Proof.
  intros Hstep cs. induction cs as [| c cs IH]; intros self HP; [done |].
  rewrite run_cons. cbn [fst]. apply IH, Hstep, HP.
Qed.

Lemma exec_filter_applied {V} (c : call A V) self :
  _safedelete_filter_applied self = true →
  _safedelete_filter_applied (exec c self).1 = true.
Proof.
  intros Happ. destruct c; cbn [exec fst get_compiler set_limits];
    try by apply filter_visibility_applied.
  - unfold check_field_filter. by destruct (_ && _).
  - done.
  - done.
Qed.

Lemma exec_force_visibility {V} mode (c : call A V) self :
  _safedelete_force_visibility self = Some mode
  ∨ _safedelete_force_visibility self = Some DELETED_VISIBLE →
  _safedelete_force_visibility (exec c self).1 = Some mode
  ∨ _safedelete_force_visibility (exec c self).1 = Some DELETED_VISIBLE.
Proof.
  intros Hset.
  destruct (filter_visibility_attrs self) as (Hforce & _).
  destruct c; cbn [exec fst get_compiler set_limits]; try done;
    try (cbn; by rewrite Hforce).
  unfold check_field_filter. destruct (_ && _); [by right | done].
Qed.

(** The triggered state: mode VISIBLE_BY_FIELD with the override set to
    VISIBLE. *)
Lemma exec_triggered {V} (c : call A V) self :
  _safedelete_visibility self = DELETED_VISIBLE_BY_FIELD
  ∧ _safedelete_force_visibility self = Some DELETED_VISIBLE →
  _safedelete_visibility (exec c self).1 = DELETED_VISIBLE_BY_FIELD
  ∧ _safedelete_force_visibility (exec c self).1 = Some DELETED_VISIBLE.
Proof.
  intros [Hvis Hforce].
  destruct (filter_visibility_attrs self) as (Hf & Hv & _).
  destruct c; cbn [exec fst get_compiler set_limits]; try done;
    try (cbn; by rewrite Hf, Hv).
  unfold check_field_filter. by destruct (_ && _).
Qed.

(** C1. On a query that can still be filtered and whose flag is false,
    [_filter_visibility] with effective mode INVISIBLE or VISIBLE_BY_FIELD
    makes one [add_q] call, with the condition that the deleted-marker
    field is null, and sets the flag; with effective mode ONLY_VISIBLE it
    does the same with the condition that the field is not null.  On a
    host whose [add_q] appends, the condition set grows by exactly that
    one condition. *)
Theorem filter_visibility_injects self :
  modes_distinct →
  can_filter (base self) = true →
  _safedelete_filter_applied self = false →
  (effective_visibility self = DELETED_INVISIBLE
   ∨ effective_visibility self = DELETED_VISIBLE_BY_FIELD →
     _filter_visibility self = set_filter_applied true (on_base (add_q (isnull_q true)) self)
     ∧ _safedelete_filter_applied (_filter_visibility self) = true
     ∧ (HostLaws host →
        where_ (base (_filter_visibility self))
        = where_ (base self) ++ [mkQ (FIELD_NAME +:+ "__isnull") true]))
  ∧ (effective_visibility self = DELETED_ONLY_VISIBLE →
     _filter_visibility self = set_filter_applied true (on_base (add_q (isnull_q false)) self)
     ∧ _safedelete_filter_applied (_filter_visibility self) = true
     ∧ (HostLaws host →
        where_ (base (_filter_visibility self))
        = where_ (base self) ++ [mkQ (FIELD_NAME +:+ "__isnull") false])).
Proof.
  intros Hdist Hcan Happ. rewrite (filter_visibility_open _ Hcan Happ).
  destruct (modes_distinct_ne Hdist) as (_ & _ & Hio & _ & Hfo & _).
  split; intros Hmode.
  - assert (in_tuple (effective_visibility self)
              [DELETED_INVISIBLE; DELETED_VISIBLE_BY_FIELD] = true) as Hpol
      by (destruct Hmode as [-> | ->]; tuple_cases).
    assert (in_tuple (effective_visibility self)
              [DELETED_INVISIBLE; DELETED_VISIBLE_BY_FIELD;
               DELETED_ONLY_VISIBLE] = true) as ->
      by (destruct Hmode as [-> | ->]; tuple_cases).
    rewrite Hpol. split_and!; [done .. |].
    intros Hlaws. cbn [base set_filter_applied on_base]. by rewrite where_add_q.
  - assert (in_tuple (effective_visibility self)
              [DELETED_INVISIBLE; DELETED_VISIBLE_BY_FIELD] = false) as Hpol
      by (rewrite Hmode; tuple_cases).
    assert (in_tuple (effective_visibility self)
              [DELETED_INVISIBLE; DELETED_VISIBLE_BY_FIELD;
               DELETED_ONLY_VISIBLE] = true) as ->
      by (rewrite Hmode; tuple_cases).
    rewrite Hpol. split_and!; [done .. |].
    intros Hlaws. cbn [base set_filter_applied on_base]. by rewrite where_add_q.
Qed.

(** C9. When the query cannot be filtered any more, or the flag is
    already true, [_filter_visibility] returns (the function is total) and
    the object it leaves is the object it was given: no condition added,
    no attribute changed. *)
Theorem filter_visibility_precondition self :
  can_filter (base self) = false ∨ _safedelete_filter_applied self = true →
  _filter_visibility self = self.
Proof. apply filter_visibility_guard. Qed.

(** C3, as amended.  With effective mode VISIBLE, [_filter_visibility]
    changes nothing: no condition goes in and the flag keeps its value.  If
    the override is assigned a filtering mode afterwards, the next call
    adds that mode's condition and sets the flag when the query can still
    be filtered and the flag is false; when the query cannot be filtered
    or the flag is true, the next call adds nothing. *)
Theorem filter_visibility_visible self :
  modes_distinct →
  effective_visibility self = DELETED_VISIBLE →
  _filter_visibility self = self
  ∧ ∀ mode,
      mode ∈ [DELETED_INVISIBLE; DELETED_VISIBLE_BY_FIELD; DELETED_ONLY_VISIBLE] →
      (can_filter (base self) = true →
       _safedelete_filter_applied self = false →
       _filter_visibility
         (set_force_visibility (Some mode) (_filter_visibility self))
       = set_filter_applied true
           (on_base
              (add_q (isnull_q (in_tuple mode
                         [DELETED_INVISIBLE; DELETED_VISIBLE_BY_FIELD])))
              (set_force_visibility (Some mode) self))
       ∧ _safedelete_filter_applied
           (_filter_visibility
              (set_force_visibility (Some mode) (_filter_visibility self)))
         = true
       ∧ base (_filter_visibility
                 (set_force_visibility (Some mode) (_filter_visibility self)))
         = add_q (isnull_q (in_tuple mode
                     [DELETED_INVISIBLE; DELETED_VISIBLE_BY_FIELD]))
             (base self))
      ∧ (can_filter (base self) = false
         ∨ _safedelete_filter_applied self = true →
         _filter_visibility
           (set_force_visibility (Some mode) (_filter_visibility self))
         = set_force_visibility (Some mode) self).
Proof.
  intros Hdist Hmode.
  assert (_filter_visibility self = self) as Hsame.
  { destruct (filter_visibility_cases self) as [? | (_ & _ & Hin & _)]; [done |].
    destruct (modes_distinct_ne Hdist) as (_ & Hiv & _ & Hfv & _ & Hvo).
    exfalso. revert Hin. rewrite Hmode. tuple_cases. }
  split; [done |].
  intros mode Hin. rewrite Hsame. split.
  - intros Hcan Happ.
    rewrite filter_visibility_open by done.
    apply in_tuple_true in Hin.
    change (effective_visibility (set_force_visibility (Some mode) self)) with mode.
    by rewrite Hin.
  - intros Hguard. by apply filter_visibility_guard.
Qed.

(** C6. When the mode is VISIBLE_BY_FIELD and the keyword is a key of
    [kwargs], [check_field_filter] leaves the override at VISIBLE and the
    mode, the keyword, the flag and the host part as they were; in every
    other case it leaves the whole object as it was.  So the override is
    VISIBLE afterwards exactly when the mode is VISIBLE_BY_FIELD with the
    keyword among the keys, or it was VISIBLE before.  The function is
    total in the object and the mapping and gives back the object only. *)
Theorem check_field_filter_spec {V} (kwargs : gmap string V) self :
  (_safedelete_visibility self = DELETED_VISIBLE_BY_FIELD
   ∧ _safedelete_visibility_field self ∈ dom kwargs →
     _safedelete_force_visibility (check_field_filter kwargs self)
     = Some DELETED_VISIBLE
     ∧ _safedelete_visibility (check_field_filter kwargs self)
       = _safedelete_visibility self
     ∧ _safedelete_visibility_field (check_field_filter kwargs self)
       = _safedelete_visibility_field self
     ∧ _safedelete_filter_applied (check_field_filter kwargs self)
       = _safedelete_filter_applied self
     ∧ base (check_field_filter kwargs self) = base self)
  ∧ (¬ (_safedelete_visibility self = DELETED_VISIBLE_BY_FIELD
        ∧ _safedelete_visibility_field self ∈ dom kwargs) →
     check_field_filter kwargs self = self)
  ∧ (_safedelete_force_visibility (check_field_filter kwargs self)
     = Some DELETED_VISIBLE
     ↔ (_safedelete_visibility self = DELETED_VISIBLE_BY_FIELD
        ∧ _safedelete_visibility_field self ∈ dom kwargs)
       ∨ _safedelete_force_visibility self = Some DELETED_VISIBLE).
Proof.
  unfold check_field_filter. rewrite elem_of_dom.
  destruct (Z.eqb_spec (_safedelete_visibility self) DELETED_VISIBLE_BY_FIELD)
    as [Heq | Hne]; cbn [andb].
  - case_bool_decide.
    + split_and!; [done | tauto |]. split; [by left | done].
    + split_and!; [tauto | done | tauto].
  - split_and!; [tauto | done | tauto].
Qed.

(** C4. The flag only goes from false to true: a call of any method of
    the class on an object whose flag is true leaves it true, over any
    sequence of calls, and [clone] gives the new object the flag of the
    old one.  Calling [_filter_visibility] a second time changes nothing,
    so the condition goes in at most once. *)
Theorem filter_applied_monotone {V} :
  (∀ (cs : list (call A V)) self,
      _safedelete_filter_applied self = true →
      _safedelete_filter_applied (run cs self).1 = true)
  ∧ (∀ self,
      _safedelete_filter_applied (clone self) = _safedelete_filter_applied self)
  ∧ (∀ self,
      _filter_visibility (_filter_visibility self) = _filter_visibility self).
Proof.
  split_and!.
  - apply (run_preserves (λ self, _safedelete_filter_applied self = true)).
    apply exec_filter_applied.
  - done.
  - intros self.
    destruct (filter_visibility_cases self) as [Hsame | (_ & _ & _ & Hinj)].
    + by rewrite !Hsame.
    + rewrite Hinj. by apply filter_visibility_guard; right.
Qed.

(** C5. An override that is set is the effective mode, whatever the mode
    attribute says.  No sequence of calls of the class's methods takes an
    override away: it keeps its value, or becomes VISIBLE when the keyword
    trigger fires, and a query in the triggered state (mode
    VISIBLE_BY_FIELD, override VISIBLE) stays in it, clones included; a
    clone carries the override of the object it was made from. *)
Theorem force_visibility_persists {V} :
  (∀ self mode,
      _safedelete_force_visibility self = Some mode →
      effective_visibility self = mode)
  ∧ (∀ (cs : list (call A V)) self mode,
      _safedelete_force_visibility self = Some mode →
      (_safedelete_force_visibility (run cs self).1 = Some mode
       ∨ _safedelete_force_visibility (run cs self).1 = Some DELETED_VISIBLE)
      ∧ Some (effective_visibility (run cs self).1)
        = _safedelete_force_visibility (run cs self).1)
  ∧ (∀ (cs : list (call A V)) self,
      _safedelete_visibility self = DELETED_VISIBLE_BY_FIELD →
      _safedelete_force_visibility self = Some DELETED_VISIBLE →
      _safedelete_visibility (run cs self).1 = DELETED_VISIBLE_BY_FIELD
      ∧ _safedelete_force_visibility (run cs self).1 = Some DELETED_VISIBLE
      ∧ effective_visibility (run cs self).1 = DELETED_VISIBLE)
  ∧ (∀ self,
      _safedelete_force_visibility (clone self)
      = _safedelete_force_visibility self).
Proof.
  split_and!.
  - intros self mode Hforce. unfold effective_visibility. by rewrite Hforce.
  - intros cs self mode Hset.
    pose proof (run_preserves
                  (λ self, _safedelete_force_visibility self = Some mode
                           ∨ _safedelete_force_visibility self = Some DELETED_VISIBLE)
                  (@exec_force_visibility V mode) cs self (or_introl Hset))
      as Hafter.
    split; [done |]. unfold effective_visibility.
    by destruct Hafter as [-> | ->].
  - intros cs self Hvis Hforce.
    pose proof (run_preserves
                  (λ self, _safedelete_visibility self = DELETED_VISIBLE_BY_FIELD
                           ∧ _safedelete_force_visibility self = Some DELETED_VISIBLE)
                  (@exec_triggered V) cs self (conj Hvis Hforce)) as [Hv Hf].
    split_and!; [done .. |]. unfold effective_visibility. by rewrite Hf.
  - done.
Qed.

(** The store after [clone]: the new object has the four attributes of the
    object it was made from, whatever the host left in them. *)
Lemma clone_at_new inherited l (σ : gmap nat (SafeDeleteQuery H)) self :
  σ !! l = Some self →
  ∃ σ', clone_at inherited l σ = Some (fresh (dom σ), σ')
        ∧ σ' !! fresh (dom σ) = Some (clone self)
        ∧ ∀ k, k ≠ fresh (dom σ) → σ' !! k = σ !! k.
Proof.
  intros Hl.
  assert (l ≠ fresh (dom σ)) as Hne.
  { intros Heq. apply (is_fresh (dom σ)). rewrite <- Heq.
    apply elem_of_dom. eauto. }
  unfold clone_at, super_clone_at. rewrite Hl. cbn [mbind option_bind].
  unfold getattr, setattr.
  repeat (rewrite ?lookup_alter_ne, ?lookup_insert_ne, ?Hl by done;
          cbn [fmap option_fmap option_map mbind option_bind]).
  eexists. split; [done |]. split.
  - rewrite !lookup_alter_eq, lookup_insert_eq.
    cbn [fmap option_fmap option_map]. by destruct (inherited self).
  - intros k Hk. by rewrite !lookup_alter_ne, lookup_insert_ne.
Qed.

(** A call on an object of the store returns, leaves on that object what
    [stay] says, and leaves the objects that were there before alone. *)
Lemma call_at_target {V} inherited (c : call A V) l
    (σ : gmap nat (SafeDeleteQuery H)) self :
  σ !! l = Some self →
  ∃ r σ', call_at inherited c l σ = Some (r, σ')
          ∧ σ' !! l = Some (stay c self)
          ∧ ∀ k, k ≠ l → k ∈ dom σ → σ' !! k = σ !! k.
Proof.
  intros Hl.
  assert (∀ k, k ∈ dom σ → k ≠ fresh (dom σ)) as Hold.
  { intros k Hk Heq. apply (is_fresh (dom σ)). by rewrite <- Heq. }
  destruct c; cbn [call_at stay]; rewrite ?Hl;
    try (eexists _, _; split; [done |]; split;
         [by rewrite lookup_insert_eq
         | by intros k Hk _; rewrite lookup_insert_ne]).
  destruct (clone_at_new inherited l σ self Hl) as (σ' & -> & _ & Hrest).
  eexists _, _. split; [done |]. split.
  - rewrite Hrest, Hl; [done |]. apply Hold, elem_of_dom. eauto.
  - intros k _ Hk. by apply Hrest, Hold.
Qed.

(** Calls on two objects: what each ends as depends on the calls made on
    it only. *)
Lemma calls_at_two {V} inherited (cs : list (nat * call A V)) l c
    (σ : gmap nat (SafeDeleteQuery H)) self other :
  l ≠ c → σ !! l = Some self → σ !! c = Some other →
  Forall (λ lc, lc.1 = l ∨ lc.1 = c) cs →
  ∃ σ', calls_at inherited cs σ = Some σ'
        ∧ σ' !! l = Some (stays (calls_of l cs) self)
        ∧ σ' !! c = Some (stays (calls_of c cs) other).
Proof.
  intros Hne. revert σ self other.
  induction cs as [| [k ch] cs IH]; intros σ self other Hl Hc Hall.
  - by exists σ.
  - apply Forall_cons in Hall as [Hk Hall]. cbn [fst] in Hk.
    cbn [calls_at calls_of].
    destruct Hk as [-> | ->].
    + destruct (call_at_target inherited ch l σ self Hl)
        as (r & σ1 & -> & Hl1 & Hrest).
      rewrite decide_True by done. rewrite decide_False by done.
      cbn [stays]. apply IH; [done | | done].
      rewrite Hrest; [done | done |]. apply elem_of_dom. eauto.
    + destruct (call_at_target inherited ch c σ other Hc)
        as (r & σ1 & -> & Hc1 & Hrest).
      rewrite decide_False by done. rewrite decide_True by done.
      cbn [stays]. apply IH; [| done | done].
      rewrite Hrest; [done | done |]. apply elem_of_dom. eauto.
Qed.

(** C7. [clone] on an object of the store returns a new object, at a
    reference that was not in use.  Its mode, keyword, flag and override
    are those of the object it was made from (an override that was never
    set stays unset), whatever the host's clone left in them, and its host
    part is the host's clone of the host part.  No other object is
    changed.  After that the two objects are independent: under any calls
    made on the one and on the other, each ends as the calls made on it
    leave it, whatever was done to the other. *)
Theorem clone_spec {V} inherited (σ : gmap nat (SafeDeleteQuery H)) l self :
  σ !! l = Some self →
  ∃ c σ',
    clone_at inherited l σ = Some (c, σ')
    ∧ (c ∉ dom σ)
    ∧ σ' !! c
      = Some {| _safedelete_filter_applied := _safedelete_filter_applied self;
                _safedelete_force_visibility := _safedelete_force_visibility self;
                _safedelete_visibility := _safedelete_visibility self;
                _safedelete_visibility_field := _safedelete_visibility_field self;
                base := super_clone (base self) |}
    ∧ (∀ k, k ≠ c → σ' !! k = σ !! k)
    ∧ ∀ cs : list (nat * call A V),
        Forall (λ lc, lc.1 = l ∨ lc.1 = c) cs →
        ∃ σ'',
          calls_at inherited cs σ' = Some σ''
          ∧ σ'' !! l = Some (stays (calls_of l cs) self)
          ∧ σ'' !! c
            = Some (stays (calls_of c cs)
                      {| _safedelete_filter_applied := _safedelete_filter_applied self;
                         _safedelete_force_visibility := _safedelete_force_visibility self;
                         _safedelete_visibility := _safedelete_visibility self;
                         _safedelete_visibility_field := _safedelete_visibility_field self;
                         base := super_clone (base self) |}).
Proof.
  intros Hl.
  destruct (clone_at_new inherited l σ self Hl) as (σ' & Hclone & Hnew & Hrest).
  assert (fresh (dom σ) ∉ dom σ) as Hfresh by apply is_fresh.
  assert (l ≠ fresh (dom σ)) as Hne.
  { intros Heq. apply Hfresh. rewrite <- Heq. apply elem_of_dom. eauto. }
  exists (fresh (dom σ)), σ'.
  split_and!; [done | done | done | done |].
  intros cs Hall.
  apply (calls_at_two inherited cs l (fresh (dom σ)) σ' self (clone self));
    [done | | done | done].
  by rewrite Hrest.
Qed.

End SafeDeleteFacts.

(** ** On a host that keeps its conditions *)

Section SafeDeleteHostFacts.
Context {cfg : Config} {H A C : Type} {host : HostQuery H A C}.
Context {laws : HostLaws host}.
Implicit Types (self : SafeDeleteQuery H) (h : H) (mode : Z).

Lemma filter_visibility_keeps self q :
  q ∈ where_ (base self) → q ∈ where_ (base (_filter_visibility self)).
Proof.
  intros Hq.
  destruct (filter_visibility_cases self) as [-> | (_ & _ & _ & ->)]; [done |].
  cbn [base set_filter_applied on_base]. rewrite where_add_q.
  by apply elem_of_app; left.
Qed.

Lemma exec_keeps {V} (c : call A V) self q :
  q ∈ where_ (base self) → q ∈ where_ (base (exec c self).1).
Proof.
  intros Hq. destruct c; cbn [exec fst get_compiler set_limits].
  - unfold check_field_filter. by destruct (_ && _).
  - by apply filter_visibility_keeps.
  - cbn [clone base]. by rewrite where_super_clone.
  - by apply filter_visibility_keeps.
  - cbn [on_base base]. by apply where_super_set_limits, filter_visibility_keeps.
  - cbn [on_base base]. rewrite where_add_q. by apply elem_of_app; left.
Qed.

(** C10. A condition that is in the condition set stays in it over every
    sequence of calls of the class's methods.  When the keyword trigger
    fires on an object whose flag is already true, the host part and the
    flag are as before and [_filter_visibility] does nothing, then and
    after any further calls.  In particular a VISIBLE_BY_FIELD query that
    was filtered and then triggered has the override VISIBLE and still
    carries the condition that the deleted-marker field is null. *)
Theorem injected_condition_stays {V} :
  (∀ (cs : list (call A V)) self q,
      q ∈ where_ (base self) → q ∈ where_ (base (run cs self).1))
  ∧ (∀ (kwargs : gmap string V) (cs : list (call A V)) self,
      _safedelete_filter_applied self = true →
      base (check_field_filter kwargs self) = base self
      ∧ _safedelete_filter_applied (check_field_filter kwargs self) = true
      ∧ _filter_visibility (check_field_filter kwargs self)
        = check_field_filter kwargs self
      ∧ _filter_visibility (run cs (check_field_filter kwargs self)).1
        = (run cs (check_field_filter kwargs self)).1)
  ∧ (∀ (kwargs : gmap string V) (cs : list (call A V)) field h,
      can_filter h = true →
      is_Some (kwargs !! field) →
      let filtered :=
        _filter_visibility (new_query DELETED_VISIBLE_BY_FIELD field h) in
      let triggered := check_field_filter kwargs filtered in
      _safedelete_force_visibility triggered = Some DELETED_VISIBLE
      ∧ where_ (base triggered) = where_ h ++ [isnull_q true]
      ∧ isnull_q true ∈ where_ (base (run cs triggered).1)
      ∧ _filter_visibility (run cs triggered).1 = (run cs triggered).1).
Proof.
  split_and!.
  - intros cs self q. revert self.
    apply (run_preserves (λ self, q ∈ where_ (base self))).
    intros c self. apply exec_keeps.
  - intros kwargs cs self Happ.
    assert (_safedelete_filter_applied (check_field_filter kwargs self) = true)
      as Happ'.
    { unfold check_field_filter. by destruct (_ && _). }
    split_and!; [| done | |].
    + unfold check_field_filter. by destruct (_ && _).
    + by apply filter_visibility_guard; right.
    + apply filter_visibility_guard; right.
      revert Happ'. generalize (check_field_filter kwargs self).
      apply (run_preserves (λ self, _safedelete_filter_applied self = true)).
      apply exec_filter_applied.
  - intros kwargs cs field h Hcan Hkey filtered triggered.
    assert (filtered
            = set_filter_applied true
                (on_base (add_q (isnull_q true))
                   (new_query DELETED_VISIBLE_BY_FIELD field h))) as Hfiltered.
    { unfold filtered. rewrite filter_visibility_open by done.
      change (effective_visibility (new_query DELETED_VISIBLE_BY_FIELD field h))
        with DELETED_VISIBLE_BY_FIELD.
      unfold in_tuple; cbn [existsb]. rewrite Z.eqb_refl.
      by rewrite !orb_true_r. }
    assert (triggered = set_force_visibility (Some DELETED_VISIBLE) filtered)
      as Htriggered.
    { unfold triggered, check_field_filter. rewrite Hfiltered.
      cbn [_safedelete_visibility _safedelete_visibility_field
           set_filter_applied on_base new_query].
      rewrite Z.eqb_refl, bool_decide_eq_true_2; done. }
    assert (where_ (base triggered) = where_ h ++ [isnull_q true]) as Hwhere.
    { rewrite Htriggered, Hfiltered. cbn. apply where_add_q. }
    assert (_safedelete_filter_applied (run cs triggered).1 = true) as Happ.
    { apply (run_preserves (λ self, _safedelete_filter_applied self = true)
               (@exec_filter_applied _ _ _ _ _ V)).
      by rewrite Htriggered, Hfiltered. }
    split_and!.
    + by rewrite Htriggered.
    + done.
    + apply (run_preserves (λ self, isnull_q true ∈ where_ (base self))).
      * intros c self. apply exec_keeps.
      * rewrite Hwhere. apply elem_of_app; right. apply list_elem_of_singleton. done.
    + by apply filter_visibility_guard; right.
Qed.





End SafeDeleteHostFacts.

Section SafeDeleteOrder.
Context {cfg : Config} {H A C : Type} {host : HostQuery H A C}.
Implicit Types (self : SafeDeleteQuery H) (h : H) (mode : Z).


End SafeDeleteOrder.

(** ** VISIBLE_BY_FIELD next to INVISIBLE and VISIBLE *)

Section SafeDeleteByField.
Context {cfg : Config} {H A C : Type} {host : HostQuery H A C}.
Implicit Types (self other : SafeDeleteQuery H) (h : H) (field : string).

Lemma run_app {V} (cs1 cs2 : list (call A V)) self :
  run (cs1 ++ cs2) self
  = ((run cs2 (run cs1 self).1).1,
     (run cs1 self).2 ++ (run cs2 (run cs1 self).1).2).
Proof.
  revert self. induction cs1 as [| c cs1 IH]; intros self.
  - cbn [app run fst snd]. by destruct (run cs2 self).
  - rewrite <- app_comm_cons, !run_cons, IH. cbn [fst snd].
    by rewrite app_assoc.
Qed.

(** Two objects that a relation kept by every call relates give the same
    compilers. *)
Lemma run_related {V} (R : SafeDeleteQuery H → SafeDeleteQuery H → Prop)
    (ok : call A V → bool) :
  (∀ c self other, ok c = true → R self other →
     R (exec c self).1 (exec c other).1 ∧ (exec c self).2 = (exec c other).2) →
  ∀ cs self other, forallb ok cs = true → R self other →
    R (run cs self).1 (run cs other).1 ∧ (run cs self).2 = (run cs other).2.
Proof.
  intros Hstep cs. induction cs as [| c cs IH]; intros self other Hok HR; [done |].
  cbn [forallb] in Hok. apply andb_true_iff in Hok as [Hc Hcs].
  destruct (Hstep c self other Hc HR) as [HR1 Hout1].
  destruct (IH _ _ Hcs HR1) as [HR2 Hout2].
  rewrite !run_cons. cbn [fst snd]. by rewrite Hout1, Hout2.
Qed.

(** [_filter_visibility] looks at the host part, the flag and the two
    membership tests on the effective mode only. *)
Lemma filter_visibility_same_view self other :
  same_view self other →
  in_tuple (effective_visibility self)
    [DELETED_INVISIBLE; DELETED_VISIBLE_BY_FIELD; DELETED_ONLY_VISIBLE]
  = in_tuple (effective_visibility other)
      [DELETED_INVISIBLE; DELETED_VISIBLE_BY_FIELD; DELETED_ONLY_VISIBLE] →
  in_tuple (effective_visibility self)
    [DELETED_INVISIBLE; DELETED_VISIBLE_BY_FIELD]
  = in_tuple (effective_visibility other)
      [DELETED_INVISIBLE; DELETED_VISIBLE_BY_FIELD] →
  same_view (_filter_visibility self) (_filter_visibility other).
Proof.
  intros [Hbase Happ] Hin Hpol. unfold _filter_visibility.
  rewrite Hbase, Happ, Hin, Hpol.
  destruct (negb _ || _); [done |].
  destruct (in_tuple (effective_visibility other) (_ :: _ :: _ :: _)); [| done].
  split; cbn; [by rewrite Hbase | done].
Qed.

Lemma check_field_filter_view {V} (kwargs : gmap string V) self :
  same_view (check_field_filter kwargs self) self.
Proof. unfold check_field_filter. by destruct (_ && _). Qed.

Lemma exec_untriggered_pair {V} field (c : call A V) self other :
  negb (passes field c) = true →
  untriggered_pair field self other →
  untriggered_pair field (exec c self).1 (exec c other).1
  ∧ (exec c self).2 = (exec c other).2.
Proof.
  intros Hpass%negb_true_iff
    (Hview & Hfs & Hfo & Hforce_s & Hforce_o & Hvis_s & Hvis_o).
  assert (same_view (_filter_visibility self) (_filter_visibility other))
    as Hview'.
  { apply filter_visibility_same_view; [done | |];
      unfold effective_visibility; rewrite Hforce_s, Hforce_o, Hvis_s, Hvis_o;
      unfold in_tuple; cbn [existsb]; rewrite !Z.eqb_refl;
      by rewrite ?orb_true_r. }
  destruct (filter_visibility_attrs self) as (Hf1 & Hv1 & Hk1).
  destruct (filter_visibility_attrs other) as (Hf2 & Hv2 & Hk2).
  assert (untriggered_pair field (_filter_visibility self)
            (_filter_visibility other)) as Hpair'.
  { unfold untriggered_pair. rewrite Hf1, Hv1, Hk1, Hf2, Hv2, Hk2. done. }
  destruct Hview as [Hbase Happ]. destruct Hview' as [Hbase' Happ'].
  destruct c; cbn [exec fst snd get_compiler set_limits]; try done.
  - cbn [passes] in Hpass. unfold check_field_filter.
    rewrite Hfs, Hfo, Hpass, !andb_false_r. done.
  - split; [| done]. unfold untriggered_pair, same_view. cbn.
    by rewrite Hbase.
  - by rewrite Hbase'.
  - split; [| done]. destruct Hpair' as (_ & ? & ? & ? & ? & ? & ?).
    unfold untriggered_pair, same_view. cbn. by rewrite Hbase'.
  - split; [| done]. unfold untriggered_pair, same_view. cbn.
    by rewrite Hbase.
Qed.

Lemma effective_always_visible self :
  always_visible self → effective_visibility self = DELETED_VISIBLE.
Proof.
  unfold effective_visibility. by intros [-> | [-> ->]].
Qed.

Lemma exec_always_visible {V} (c : call A V) self :
  always_visible self → always_visible (exec c self).1.
Proof.
  intros Hvis.
  destruct (filter_visibility_attrs self) as (Hf & Hv & _).
  assert (always_visible (_filter_visibility self)) as Hvis'.
  { unfold always_visible. by rewrite Hf, Hv. }
  destruct c; cbn [exec fst get_compiler set_limits]; try done.
  unfold check_field_filter. destruct (_ && _); [by left | done].
Qed.

Lemma exec_by_field {V} field (c : call A V) self :
  by_field field self → by_field field (exec c self).1.
Proof.
  intros Hby.
  destruct (filter_visibility_attrs self) as (Hf & Hv & Hk).
  assert (by_field field (_filter_visibility self)) as Hby'.
  { unfold by_field. by rewrite Hf, Hv, Hk. }
  destruct c; cbn [exec fst get_compiler set_limits]; try done.
  unfold check_field_filter. destruct (_ && _); [| done].
  destruct Hby as (? & ? & _). split_and!; [done | done | by right].
Qed.

(** From the trigger on: two queries whose effective mode is VISIBLE for
    good and that show the same keep showing the same. *)
Lemma exec_visible_pair {V} (c : call A V) self other :
  same_view self other ∧ always_visible self ∧ always_visible other →
  (same_view (exec c self).1 (exec c other).1
   ∧ always_visible (exec c self).1 ∧ always_visible (exec c other).1)
  ∧ (exec c self).2 = (exec c other).2.
Proof.
  intros (Hview & Hs & Ho).
  pose proof (exec_always_visible c _ Hs) as Hs'.
  pose proof (exec_always_visible c _ Ho) as Ho'.
  assert (same_view (_filter_visibility self) (_filter_visibility other))
    as [Hbase' Happ'].
  { apply filter_visibility_same_view; [done | |];
      by rewrite !effective_always_visible. }
  pose proof Hview as [Hbase Happ].
  split; [split_and!; [| done | done] |].
  - destruct c; cbn [exec fst get_compiler set_limits]; try done.
    + destruct (check_field_filter_view kwargs self) as [Hb1 Ha1].
      destruct (check_field_filter_view kwargs other) as [Hb2 Ha2].
      split; congruence.
    + split; cbn; [by rewrite Hbase | done].
    + split; cbn; [by rewrite Hbase' | done].
    + split; cbn; [by rewrite Hbase | done].
  - destruct c; cbn [exec snd get_compiler]; try done.
    by rewrite Hbase'.
Qed.

(** Before any condition went in: when [_filter_visibility] leaves the
    flag of the VISIBLE_BY_FIELD query false, it added nothing to it, and
    nothing to the VISIBLE query either. *)
Lemma filter_visibility_before_injection field self other :
  same_view self other → by_field field self → always_visible other →
  _safedelete_filter_applied (_filter_visibility self) = false →
  same_view (_filter_visibility self) (_filter_visibility other).
Proof.
  intros Hview (Hvis & _ & Hforce) Hother Hafter.
  destruct Hforce as [Hnone | Hsome].
  - pose proof Hview as [Hbase Happ].
    revert Hafter. unfold _filter_visibility.
    rewrite <- Hbase, <- Happ.
    destruct (negb _ || _); [done |].
    unfold effective_visibility at 1. rewrite Hnone, Hvis.
    assert (in_tuple DELETED_VISIBLE_BY_FIELD
              [DELETED_INVISIBLE; DELETED_VISIBLE_BY_FIELD;
               DELETED_ONLY_VISIBLE] = true) as ->.
    { unfold in_tuple; cbn [existsb]. rewrite Z.eqb_refl.
      by rewrite orb_true_r. }
    done.
  - apply filter_visibility_same_view; [done | |];
      rewrite (effective_always_visible other) by done;
      unfold effective_visibility; by rewrite Hsome.
Qed.

Lemma exec_before_injection {V} field (c : call A V) self other :
  same_view self other → by_field field self → always_visible other →
  _safedelete_filter_applied (exec c self).1 = false →
  same_view (exec c self).1 (exec c other).1.
Proof.
  intros Hview Hby Hother Hafter.
  pose proof Hview as [Hbase Happ].
  destruct c; cbn [exec fst get_compiler set_limits] in *.
  - destruct (check_field_filter_view kwargs self) as [Hb1 Ha1].
    destruct (check_field_filter_view kwargs other) as [Hb2 Ha2].
    split; congruence.
  - by apply (filter_visibility_before_injection field).
  - split; cbn; [by rewrite Hbase | done].
  - by apply (filter_visibility_before_injection field).
  - destruct (filter_visibility_before_injection field self other)
      as [Hbase' Happ']; [done .. |].
    split; cbn; [by rewrite Hbase' | done].
  - split; cbn; [by rewrite Hbase | done].
Qed.

Lemma run_before_injection {V} field (cs : list (call A V)) self other :
  same_view self other → by_field field self → always_visible other →
  _safedelete_filter_applied (run cs self).1 = false →
  same_view (run cs self).1 (run cs other).1
  ∧ by_field field (run cs self).1
  ∧ always_visible (run cs other).1.
Proof.
  revert self other.
  induction cs as [| c cs IH]; intros self other Hview Hby Hother Hafter;
    [done |].
  rewrite !run_cons in *. cbn [fst] in *.
  assert (_safedelete_filter_applied (exec c self).1 = false) as Hstep.
  { destruct (_safedelete_filter_applied (exec c self).1) eqn:Happ; [| done].
    rewrite (run_preserves (λ self, _safedelete_filter_applied self = true)
               (@exec_filter_applied _ _ _ _ _ V) cs _ Happ) in Hafter.
    done. }
  apply IH; [| | | done].
  - by apply (exec_before_injection field).
  - by apply exec_by_field.
  - by apply exec_always_visible.
Qed.

(** C2, as amended.  A VISIBLE_BY_FIELD query to which the keyword is
    never passed shows, under any calls, what the INVISIBLE query made
    from the same host query shows: same conditions, same flag, same
    compilers.  When the keyword is passed while the flag is still false,
    that is before a visibility condition went in, the query shows from
    then on, under any further calls, clones included, what the VISIBLE
    query put through the same calls shows. *)
Theorem visible_by_field_refines {V} field h :
  (∀ cs : list (call A V),
      never_passed field cs = true → behaves_as_invisible field h cs)
  ∧ (∀ (pre : list (call A V)) (kwargs : gmap string V),
      is_Some (kwargs !! field) →
      _safedelete_filter_applied
        (run pre (new_query DELETED_VISIBLE_BY_FIELD field h)).1 = false →
      behaves_as_visible_after field h pre kwargs).
Proof.
  split.
  - intros cs Hnever. unfold behaves_as_invisible, observe.
    destruct (run_related (untriggered_pair field)
                (λ c, negb (passes field c))
                (exec_untriggered_pair field) cs
                (new_query DELETED_VISIBLE_BY_FIELD field h)
                (new_query DELETED_INVISIBLE field h) Hnever)
      as [([Hbase Happ] & _) Hout]; [by unfold untriggered_pair, same_view |].
    by rewrite Hbase, Happ, Hout.
  - intros pre kwargs Hkey Hbefore cs. unfold observe.
    rewrite !run_app. cbn [fst run exec].
    destruct (run_before_injection field pre
                (new_query DELETED_VISIBLE_BY_FIELD field h)
                (new_query DELETED_VISIBLE field h))
      as (Hview & (Hvis & Hfield & _) & Hother);
      [done | by split_and!; [| | left] | by right | done |].
    set (self := (run pre (new_query DELETED_VISIBLE_BY_FIELD field h)).1) in *.
    set (other := (run pre (new_query DELETED_VISIBLE field h)).1) in *.
    assert (check_field_filter kwargs self
            = set_force_visibility (Some DELETED_VISIBLE) self) as Htrigger.
    { unfold check_field_filter.
      by rewrite Hvis, Hfield, Z.eqb_refl, bool_decide_eq_true_2. }
    destruct (run_related
                (λ self other, same_view self other
                               ∧ always_visible self ∧ always_visible other)
                (λ _, true) (λ c self other _, exec_visible_pair c self other)
                cs (check_field_filter kwargs self)
                (check_field_filter kwargs other))
      as [([Hbase Happ] & _) Hout].
    + by induction cs.
    + split_and!.
      * destruct (check_field_filter_view kwargs self) as [Hb1 Ha1].
        destruct (check_field_filter_view kwargs other) as [Hb2 Ha2].
        destruct Hview. split; congruence.
      * rewrite Htrigger. by left.
      * by apply (exec_always_visible (CallCheckFieldFilter kwargs)).
    + by rewrite Hbase, Happ, Hout.
Qed.

End SafeDeleteByField.

(** ** The class next to the plain host *)

Section SafeDeleteTransparency.
Context {cfg : Config} {H A C : Type} {host : HostQuery H A C}.
Implicit Types (self other : SafeDeleteQuery H) (h : H) (field : string).

Lemma host_run_cons {V} (c : call A V) cs h :
  host_run (c :: cs) h
  = ((host_run cs (host_exec c h).1).1,
     (host_exec c h).2 ++ (host_run cs (host_exec c h).1).2).
Proof.
  cbn [host_run]. destruct (host_exec c h) as [h1 out].
  cbn [fst snd]. by destruct (host_run cs h1).
Qed.

Lemma view_run_cons {V} (c : call A V) cs self :
  view (run (c :: cs) self)
  = ((view (run cs (exec c self).1)).1,
     (exec c self).2 ++ (view (run cs (exec c self).1)).2).
Proof. by rewrite run_cons. Qed.

(** One call: the host's own step, or the host's step on the host part
    with one null-test added, in which case the flag went from false to
    true. *)
Lemma exec_host_or_inject {V} (c : call A V) self :
  (view (exec c self) = host_exec c (base self)
   ∧ _safedelete_filter_applied (exec c self).1
     = _safedelete_filter_applied self)
  ∨ (_safedelete_filter_applied self = false
     ∧ _safedelete_filter_applied (exec c self).1 = true
     ∧ ∃ b, view (exec c self) = host_exec c (add_q (isnull_q b) (base self))).
Proof.
  destruct c; cbn [exec host_exec]; unfold get_compiler, set_limits;
    cbn zeta.
  - left. unfold check_field_filter. by destruct (_ && _).
  - destruct (filter_visibility_cases self) as [Hfv | (_ & Happ & _ & Hfv)];
      rewrite Hfv; [by left | right].
    split_and!; [done | done |]. by eexists.
  - by left.
  - destruct (filter_visibility_cases self) as [Hfv | (_ & Happ & _ & Hfv)];
      rewrite Hfv; [by left | right].
    split_and!; [done | done |]. by eexists.
  - destruct (filter_visibility_cases self) as [Hfv | (_ & Happ & _ & Hfv)];
      rewrite Hfv; [by left | right].
    split_and!; [done | done |]. by eexists.
  - by left.
Qed.

Lemma run_when_filtered {V} (cs : list (call A V)) self :
  _safedelete_filter_applied self = true →
  view (run cs self) = host_run cs (base self)
  ∧ _safedelete_filter_applied (run cs self).1 = true.
Proof.
  revert self. induction cs as [| c cs IH]; intros self Happ; [done |].
  destruct (exec_host_or_inject c self) as [[Hview Hflag] | (Hfalse & _)];
    [| congruence].
  rewrite Happ in Hflag. destruct (IH _ Hflag) as [Hrest Hafter].
  rewrite view_run_cons, host_run_cons, run_cons.
  rewrite Hrest, <- Hview. done.
Qed.

(** X1. Once the flag is true the class adds nothing of its own: under any
    sequence of calls the host part and the compilers handed out are those
    of the plain host query put through the same calls, and the flag stays
    true. *)
Theorem filtered_query_is_transparent {V} (cs : list (call A V)) self :
  _safedelete_filter_applied self = true →
  base (run cs self).1 = (host_run cs (base self)).1
  ∧ (run cs self).2 = (host_run cs (base self)).2
  ∧ _safedelete_filter_applied (run cs self).1 = true.
Proof.
  intros Happ. destruct (run_when_filtered cs self Happ) as [Hview Hafter].
  split_and!; [| | done].
  - by rewrite <- Hview.
  - by rewrite <- Hview.
Qed.

(** X2. Over any sequence of calls the class adds at most one condition, a
    null-test on the deleted-marker field: either the run is the plain
    host's run on the same calls and the flag is as before, or the flag
    went from false to true and the run is the plain host's run with one
    such condition added between two parts of the calls. *)
Theorem at_most_one_injection {V} (cs : list (call A V)) self :
  (view (run cs self) = host_run cs (base self)
   ∧ _safedelete_filter_applied (run cs self).1
     = _safedelete_filter_applied self)
  ∨ (_safedelete_filter_applied self = false
     ∧ _safedelete_filter_applied (run cs self).1 = true
     ∧ ∃ cs1 cs2 b,
         cs = cs1 ++ cs2
         ∧ view (run cs self)
           = ((host_run cs2
                 (add_q (isnull_q b) (host_run cs1 (base self)).1)).1,
              (host_run cs1 (base self)).2
              ++ (host_run cs2
                    (add_q (isnull_q b) (host_run cs1 (base self)).1)).2)).
Proof.
  revert self. induction cs as [| c cs IH]; intros self; [by left |].
  destruct (exec_host_or_inject c self)
    as [[Hview Hflag] | (Hfalse & Htrue & b & Hview)].
  - destruct (IH (exec c self).1)
      as [[Hrest Hsame] | (Hfalse & Htrue & cs1 & cs2 & b & -> & Hrest)].
    + left. rewrite view_run_cons, host_run_cons, run_cons.
      rewrite Hrest, <- Hview. cbn [fst]. by rewrite Hsame, Hflag.
    + right. split_and!; [congruence | by rewrite run_cons |].
      exists (c :: cs1), cs2, b. split; [done |].
      rewrite view_run_cons, Hrest, host_run_cons, <- Hview.
      cbn [view fst snd]. by rewrite app_assoc.
  - right. destruct (run_when_filtered cs _ Htrue) as [Hrest Hafter].
    split_and!; [done | by rewrite run_cons |].
    exists [], (c :: cs), b. split; [done |].
    change (host_run (V:=V) [] (base self)) with (base self, @nil C).
    cbn [fst snd app].
    rewrite view_run_cons, Hrest, host_run_cons, <- Hview. done.
Qed.

Lemma filter_visibility_always_visible self :
  modes_distinct → always_visible self → _filter_visibility self = self.
Proof.
  intros Hdist Hvis.
  destruct (filter_visibility_cases self) as [? | (_ & _ & Hin & _)]; [done |].
  destruct (modes_distinct_ne Hdist) as (_ & Hiv & _ & Hfv & _ & Hvo).
  exfalso. revert Hin. rewrite (effective_always_visible _ Hvis).
  unfold in_tuple; cbn [existsb].
  repeat match goal with
         | |- context [Z.eqb ?a ?b] => destruct (Z.eqb_spec a b)
         end; cbn [orb]; congruence.
Qed.

Lemma exec_visible_host {V} (c : call A V) self :
  modes_distinct → always_visible self →
  view (exec c self) = host_exec c (base self)
  ∧ _safedelete_filter_applied (exec c self).1
    = _safedelete_filter_applied self.
Proof.
  intros Hdist Hvis.
  pose proof (filter_visibility_always_visible self Hdist Hvis) as Hsame.
  destruct c; cbn [exec host_exec]; unfold get_compiler, set_limits;
    cbn zeta; rewrite ?Hsame; try done.
  unfold check_field_filter. by destruct (_ && _).
Qed.

(** X3. A query whose effective mode is VISIBLE, with the override set to
    VISIBLE or with mode VISIBLE and no override, is a plain host query
    under any sequence of calls: same host part, same compilers, the flag
    never changes and the effective mode stays VISIBLE. *)
Theorem visible_query_is_transparent {V} (cs : list (call A V)) self :
  modes_distinct →
  always_visible self →
  view (run cs self) = host_run cs (base self)
  ∧ _safedelete_filter_applied (run cs self).1
    = _safedelete_filter_applied self
  ∧ effective_visibility (run cs self).1 = DELETED_VISIBLE.
Proof.
  intros Hdist. revert self.
  induction cs as [| c cs IH]; intros self Hvis.
  - split_and!; [done | done |]. by apply effective_always_visible.
  - destruct (exec_visible_host c self Hdist Hvis) as [Hview Hflag].
    destruct (IH _ (exec_always_visible c self Hvis)) as (Hrest & Hsame & Heff).
    rewrite view_run_cons, host_run_cons, Hrest, <- Hview.
    split_and!; [done | | by rewrite run_cons].
    rewrite run_cons. cbn [fst]. congruence.
Qed.

Lemma exec_mode_and_keyword {V} (c : call A V) self :
  _safedelete_visibility (exec c self).1 = _safedelete_visibility self
  ∧ _safedelete_visibility_field (exec c self).1
    = _safedelete_visibility_field self
  ∧ (_safedelete_visibility self ≠ DELETED_VISIBLE_BY_FIELD
     ∨ passes (_safedelete_visibility_field self) c = false →
     _safedelete_force_visibility (exec c self).1
     = _safedelete_force_visibility self).
Proof.
  destruct (filter_visibility_attrs self) as (Hf & Hv & Hk).
  destruct c; cbn [exec fst]; unfold get_compiler, set_limits; cbn zeta;
    cbn [fst on_base clone _safedelete_visibility _safedelete_visibility_field
         _safedelete_force_visibility]; try done.
  unfold check_field_filter, passes.
  destruct (Z.eqb_spec (_safedelete_visibility self) DELETED_VISIBLE_BY_FIELD)
    as [Heq | Hne]; cbn [andb]; [| done].
  case_bool_decide; [| done].
  split_and!; [done | done |]. by intros [? | ?].
Qed.

(** X4. No sequence of calls changes the mode or the keyword of a query.
    The override changes only through the keyword: it is as before after
    any calls on a query whose mode is not VISIBLE_BY_FIELD, and after any
    calls none of which passes the query's keyword. *)
Theorem mode_and_keyword_fixed {V} (cs : list (call A V)) self :
  _safedelete_visibility (run cs self).1 = _safedelete_visibility self
  ∧ _safedelete_visibility_field (run cs self).1
    = _safedelete_visibility_field self
  ∧ (_safedelete_visibility self ≠ DELETED_VISIBLE_BY_FIELD
     ∨ never_passed (_safedelete_visibility_field self) cs = true →
     _safedelete_force_visibility (run cs self).1
     = _safedelete_force_visibility self).
Proof.
  revert self. induction cs as [| c cs IH]; intros self; [done |].
  destruct (exec_mode_and_keyword c self) as (Hv & Hk & Hf).
  destruct (IH (exec c self).1) as (Hvs & Hks & Hfs).
  rewrite run_cons. cbn [fst].
  split_and!; [congruence | congruence |].
  intros Hquiet. rewrite Hfs, Hf; [done | |].
  - destruct Hquiet as [? | Hnever]; [by left | right].
    cbn [never_passed forallb] in Hnever.
    apply andb_true_iff in Hnever as [Hc _]. by apply negb_true_iff.
  - rewrite Hv, Hk. destruct Hquiet as [? | Hnever]; [by left | right].
    cbn [never_passed forallb] in Hnever.
    by apply andb_true_iff in Hnever as [_ ?].
Qed.

(** X5. On a VISIBLE_BY_FIELD query, a [check_field_filter] that has the
    keyword followed by [get_compiler] or [set_limits] adds no condition,
    whatever the flag and the slicing state: the compiler is the host's
    compiler for the host part as it was, and the limits are set on it. *)
Theorem trigger_then_compile {V} (kwargs : gmap string V) args low high self :
  modes_distinct →
  _safedelete_visibility self = DELETED_VISIBLE_BY_FIELD →
  _safedelete_visibility_field self ∈ dom kwargs →
  get_compiler args (check_field_filter kwargs self)
  = (super_get_compiler args (base self),
     set_force_visibility (Some DELETED_VISIBLE) self)
  ∧ set_limits low high (check_field_filter kwargs self)
    = on_base (super_set_limits low high)
        (set_force_visibility (Some DELETED_VISIBLE) self).
Proof.
  intros Hdist Hvis Hkey.
  assert (check_field_filter kwargs self
          = set_force_visibility (Some DELETED_VISIBLE) self) as ->.
  { unfold check_field_filter. apply elem_of_dom in Hkey.
    by rewrite Hvis, Z.eqb_refl, bool_decide_eq_true_2. }
  unfold get_compiler, set_limits. cbn zeta.
  rewrite filter_visibility_always_visible; [done | done | by left].
Qed.

(** X6. [check_field_filter] looks at the keys of [kwargs] only: two
    mappings with the same keys, whatever their values, give the same
    object.  Passing the keyword with a false value triggers as well. *)
Theorem check_field_filter_keys_only {V W}
    (kwargs : gmap string V) (kwargs' : gmap string W) self :
  dom kwargs = dom kwargs' →
  check_field_filter kwargs self = check_field_filter kwargs' self.
Proof.
  intros Hdom. unfold check_field_filter.
  destruct (_ =? _); cbn [andb]; [| done].
  assert (is_Some (kwargs !! _safedelete_visibility_field self)
          ↔ is_Some (kwargs' !! _safedelete_visibility_field self)) as Hiff.
  { by rewrite <- !elem_of_dom, Hdom. }
  by rewrite (bool_decide_ext _ _ Hiff).
Qed.

(** X7. Keyword checks on one object compose: a second check with the
    same mapping changes nothing, the order of two checks does not matter,
    and two checks act as one check with the keys of both mappings. *)
Theorem check_field_filter_composes {V} (kwargs kwargs' : gmap string V) self :
  check_field_filter kwargs (check_field_filter kwargs self)
  = check_field_filter kwargs self
  ∧ check_field_filter kwargs (check_field_filter kwargs' self)
    = check_field_filter kwargs' (check_field_filter kwargs self)
  ∧ check_field_filter kwargs (check_field_filter kwargs' self)
    = check_field_filter (kwargs ∪ kwargs') self.
Proof.
  assert (bool_decide
            (is_Some ((kwargs ∪ kwargs') !! _safedelete_visibility_field self))
          = bool_decide (is_Some (kwargs !! _safedelete_visibility_field self))
            || bool_decide
                 (is_Some (kwargs' !! _safedelete_visibility_field self)))
    as Hunion.
  { rewrite <- bool_decide_or. apply bool_decide_ext.
    rewrite <- !elem_of_dom, dom_union. apply elem_of_union. }
  unfold check_field_filter. rewrite Hunion.
  destruct (_safedelete_visibility self =? DELETED_VISIBLE_BY_FIELD) eqn:Hvis;
    destruct (bool_decide (is_Some (kwargs !! _))) eqn:Hk;
    destruct (bool_decide (is_Some (kwargs' !! _))) eqn:Hk';
    cbn [andb orb set_force_visibility _safedelete_visibility
         _safedelete_visibility_field];
    rewrite ?Hvis, ?Hk, ?Hk'; cbn [andb orb]; done.
Qed.

(** X9. [_filter_visibility] leaves the object as it is exactly when the
    query cannot be filtered, or the flag is true, or the effective mode is
    none of INVISIBLE, VISIBLE_BY_FIELD and ONLY_VISIBLE (VISIBLE, or an
    integer that is no mode at all). *)
Theorem filter_visibility_noop_iff self :
  _filter_visibility self = self
  ↔ (can_filter (base self) = false
     ∨ _safedelete_filter_applied self = true
     ∨ effective_visibility self
       ∉ [DELETED_INVISIBLE; DELETED_VISIBLE_BY_FIELD; DELETED_ONLY_VISIBLE]).
Proof.
  split.
  - intros Hsame.
    destruct (can_filter (base self)) eqn:Hcan; [| by left].
    destruct (_safedelete_filter_applied self) eqn:Happ; [by right; left |].
    right; right. apply in_tuple_false.
    destruct (in_tuple _ (_ :: _ :: _ :: _)) eqn:Hin; [| done].
    rewrite filter_visibility_open in Hsame by done. rewrite Hin in Hsame.
    apply (f_equal _safedelete_filter_applied) in Hsame.
    cbn in Hsame. congruence.
  - intros [Hcan | [Happ | Hmode]].
    + by apply filter_visibility_guard; left.
    + by apply filter_visibility_guard; right.
    + destruct (filter_visibility_cases self) as [? | (_ & _ & Hin & _)];
        [done |]. by apply in_tuple_true in Hin.
Qed.

End SafeDeleteTransparency.

Section SafeDeleteHostTransparency.
Context {cfg : Config} {H A C : Type} {host : HostQuery H A C}.
Context {laws : HostLaws host}.
Implicit Types (self : SafeDeleteQuery H) (h : H) (field : string).

(** X8. Cloning before the filter runs does not change what the filter
    does: filtering the clone leaves it with the conditions and the flag
    that filtering the original leaves the original with. *)
Theorem clone_then_filter self :
  where_ (base (_filter_visibility (clone self)))
  = where_ (base (_filter_visibility self))
  ∧ _safedelete_filter_applied (_filter_visibility (clone self))
    = _safedelete_filter_applied (_filter_visibility self).
Proof.
  unfold _filter_visibility.
  change (effective_visibility (clone self)) with (effective_visibility self).
  cbn [clone base _safedelete_filter_applied].
  rewrite can_filter_super_clone.
  destruct (negb _ || _).
  - cbn [clone base _safedelete_filter_applied]. by rewrite where_super_clone.
  - destruct (in_tuple (effective_visibility self) (_ :: _ :: _ :: _)).
    + cbn [clone base set_filter_applied on_base _safedelete_filter_applied].
      by rewrite !where_add_q, where_super_clone.
    + cbn [clone base _safedelete_filter_applied]. by rewrite where_super_clone.
Qed.

Lemma exec_flag_means_condition {V} (c : call A V) self :
  (_safedelete_filter_applied self = true →
   ∃ b, isnull_q b ∈ where_ (base self)) →
  _safedelete_filter_applied (exec c self).1 = true →
  ∃ b, isnull_q b ∈ where_ (base (exec c self).1).
Proof.
  intros Hinv.
  assert (_safedelete_filter_applied (_filter_visibility self) = true →
          ∃ b, isnull_q b ∈ where_ (base (_filter_visibility self))) as Hfv.
  { destruct (filter_visibility_cases self) as [-> | (_ & _ & _ & ->)];
      [done |]. intros _. eexists.
    cbn [base set_filter_applied on_base]. rewrite where_add_q.
    apply elem_of_app; right. by apply list_elem_of_singleton. }
  destruct c; cbn [exec fst]; unfold get_compiler, set_limits; cbn zeta;
    cbn [fst]; try done.
  - unfold check_field_filter. by destruct (_ && _).
  - cbn [clone base _safedelete_filter_applied]. intros Happ.
    destruct (Hinv Happ) as [b Hb]. exists b. by rewrite where_super_clone.
  - cbn [on_base base _safedelete_filter_applied]. intros Happ.
    destruct (Hfv Happ) as [b Hb]. exists b. by apply where_super_set_limits.
  - cbn [on_base base _safedelete_filter_applied]. intros Happ.
    destruct (Hinv Happ) as [b Hb]. exists b. rewrite where_add_q.
    by apply elem_of_app; left.
Qed.

(** X10. The flag is only ever true on a query that carries a visibility
    condition: after any sequence of calls on a new query, of any mode, a
    true flag means that a null-test on the deleted-marker field is among
    the conditions. *)
Theorem flag_means_condition {V} (cs : list (call A V)) mode field h :
  _safedelete_filter_applied (run cs (new_query mode field h)).1 = true →
  ∃ b, isnull_q b ∈ where_ (base (run cs (new_query mode field h)).1).
Proof.
  apply (run_preserves
           (λ self, _safedelete_filter_applied self = true →
                    ∃ b, isnull_q b ∈ where_ (base self))).
  - intros c self. apply exec_flag_means_condition.
  - done.
Qed.

End SafeDeleteHostTransparency.

(** * The class on the small host *)

Module ReferenceFacts.
Import Reference.

Lemma set_empty_if_closed_conditions h :
  conditions (set_empty_if_closed h) = conditions h.
Proof. unfold set_empty_if_closed. by case_bool_decide. Qed.

Lemma set_low_conditions low h : conditions (set_low low h) = conditions h.
Proof. by destruct low. Qed.

Lemma set_high_conditions high h : conditions (set_high high h) = conditions h.
Proof. by destruct high. Qed.

(** The small host keeps its conditions. *)
#[export] Instance laws : HostLaws host.
Proof.
  split; try done.
  intros low high h q Hq. cbn [where_ super_set_limits host].
  by rewrite set_empty_if_closed_conditions, set_low_conditions,
    set_high_conditions.
Qed.

(** Facts about closed terms, by evaluation. *)
Ltac evaluate :=
  unfold modes_distinct; apply (bool_decide_unpack _); vm_compute; exact I.

Lemma filter_visibility_injects_witness :
  where_ (base (_filter_visibility
                  (new_query DELETED_INVISIBLE "include_deleted" fresh_query)))
  = [mkQ "deleted__isnull" true]
  ∧ where_ (base (_filter_visibility
                    (new_query DELETED_ONLY_VISIBLE "include_deleted" fresh_query)))
    = [mkQ "deleted__isnull" false].
Proof.
  split.
  - destruct (filter_visibility_injects
                (new_query DELETED_INVISIBLE "include_deleted" fresh_query)
                ltac:(evaluate) eq_refl eq_refl) as [Hnull _].
    destruct (Hnull (or_introl eq_refl)) as (_ & _ & Hwhere).
    exact (Hwhere laws).
  - destruct (filter_visibility_injects
                (new_query DELETED_ONLY_VISIBLE "include_deleted" fresh_query)
                ltac:(evaluate) eq_refl eq_refl) as [_ Hnotnull].
    destruct (Hnotnull eq_refl) as (_ & _ & Hwhere).
    exact (Hwhere laws).
Defined.

Lemma filter_visibility_precondition_witness :
  can_filter (base (new_query DELETED_INVISIBLE "include_deleted" sliced_query))
  = false
  ∧ _filter_visibility (new_query DELETED_INVISIBLE "include_deleted" sliced_query)
    = new_query DELETED_INVISIBLE "include_deleted" sliced_query.
Proof.
  split; [reflexivity |].
  apply (filter_visibility_precondition
           (new_query DELETED_INVISIBLE "include_deleted" sliced_query)).
  left. reflexivity.
Defined.

Lemma filter_visibility_visible_witness :
  let self := new_query DELETED_VISIBLE "include_deleted" fresh_query in
  _filter_visibility self = self
  ∧ where_ (base (_filter_visibility
                    (set_force_visibility (Some DELETED_INVISIBLE)
                       (_filter_visibility self))))
    = [mkQ "deleted__isnull" true]
  ∧ _filter_visibility
      (set_force_visibility (Some DELETED_INVISIBLE)
         (_filter_visibility
            (new_query DELETED_VISIBLE "include_deleted" sliced_query)))
    = set_force_visibility (Some DELETED_INVISIBLE)
        (new_query DELETED_VISIBLE "include_deleted" sliced_query).
Proof.
  intros self.
  destruct (filter_visibility_visible self ltac:(evaluate) eq_refl)
    as (Hsame & Hlater).
  destruct (Hlater DELETED_INVISIBLE ltac:(evaluate)) as [Hopen _].
  destruct (Hopen eq_refl eq_refl) as (_ & _ & Hbase).
  split_and!; [exact Hsame | by rewrite Hbase |].
  destruct (filter_visibility_visible
              (new_query DELETED_VISIBLE "include_deleted" sliced_query)
              ltac:(evaluate) eq_refl) as (_ & Hsliced).
  destruct (Hsliced DELETED_INVISIBLE ltac:(evaluate)) as [_ Hclosed].
  apply Hclosed. left. reflexivity.
Defined.

(** C3 as stated fails on a query that cannot be filtered and on one whose
    flag is true.  A VISIBLE query sliced through [set_limits], then given
    the override INVISIBLE, gets no condition from the next call; neither
    does a VISIBLE_BY_FIELD query that was filtered and then triggered
    (effective mode VISIBLE), then given the override ONLY_VISIBLE: it
    keeps its one condition that the field is null. *)
Lemma visible_then_forced_not_injected :
  (let self :=
     set_limits None (Some 5)
       (new_query DELETED_VISIBLE "include_deleted" fresh_query) in
   let forced :=
     set_force_visibility (Some DELETED_INVISIBLE) (_filter_visibility self) in
   effective_visibility self = DELETED_VISIBLE
   ∧ effective_visibility forced = DELETED_INVISIBLE
   ∧ _filter_visibility forced = forced
   ∧ where_ (base (_filter_visibility forced)) = [])
  ∧ (let self :=
       check_field_filter include_deleted
         (_filter_visibility
            (new_query DELETED_VISIBLE_BY_FIELD "include_deleted" fresh_query)) in
     let forced :=
       set_force_visibility (Some DELETED_ONLY_VISIBLE)
         (_filter_visibility self) in
     effective_visibility self = DELETED_VISIBLE
     ∧ effective_visibility forced = DELETED_ONLY_VISIBLE
     ∧ _filter_visibility forced = forced
     ∧ where_ (base (_filter_visibility forced)) = [mkQ "deleted__isnull" true]).
Proof. vm_compute. repeat split. Qed.

Lemma check_field_filter_spec_witness :
  _safedelete_force_visibility
    (check_field_filter include_deleted
       (new_query DELETED_VISIBLE_BY_FIELD "include_deleted" fresh_query))
  = Some DELETED_VISIBLE
  ∧ check_field_filter include_deleted
      (new_query DELETED_INVISIBLE "include_deleted" fresh_query)
    = new_query DELETED_INVISIBLE "include_deleted" fresh_query
  ∧ _safedelete_force_visibility
      (check_field_filter (∅ : gmap string bool)
         (new_query DELETED_VISIBLE_BY_FIELD "include_deleted" fresh_query))
    ≠ Some DELETED_VISIBLE.
Proof.
  split_and!.
  - destruct (check_field_filter_spec include_deleted
                (new_query DELETED_VISIBLE_BY_FIELD "include_deleted" fresh_query))
      as (Htrigger & _ & _).
    apply Htrigger. split; [reflexivity | evaluate].
  - destruct (check_field_filter_spec include_deleted
                (new_query DELETED_INVISIBLE "include_deleted" fresh_query))
      as (_ & Hquiet & _).
    apply Hquiet. intros [Hmode _]. vm_compute in Hmode. discriminate Hmode.
  - intros Hset.
    destruct (check_field_filter_spec (∅ : gmap string bool)
                (new_query DELETED_VISIBLE_BY_FIELD "include_deleted" fresh_query))
      as (_ & _ & Hiff).
    destruct (proj1 Hiff Hset) as [[_ Hkey] | Hforce].
    + rewrite dom_empty in Hkey. by apply not_elem_of_empty in Hkey.
    + vm_compute in Hforce. discriminate Hforce.
Defined.

Lemma filter_applied_monotone_witness :
  let self :=
    _filter_visibility
      (new_query DELETED_VISIBLE_BY_FIELD "include_deleted" fresh_query) in
  _safedelete_filter_applied self = true
  ∧ _safedelete_filter_applied (run some_calls self).1 = true.
Proof.
  intros self. split; [reflexivity |].
  apply (proj1 filter_applied_monotone some_calls self). reflexivity.
Defined.

Lemma force_visibility_persists_witness :
  let self :=
    check_field_filter include_deleted
      (new_query DELETED_VISIBLE_BY_FIELD "include_deleted" fresh_query) in
  effective_visibility self = DELETED_VISIBLE
  ∧ effective_visibility (run some_calls self).1 = DELETED_VISIBLE.
Proof.
  intros self.
  destruct (force_visibility_persists (V:=bool)) as (Hfirst & _ & Hstays & _).
  split.
  - apply (Hfirst self DELETED_VISIBLE). reflexivity.
  - apply (Hstays some_calls self); reflexivity.
Defined.

Lemma clone_spec_witness :
  let parent :=
    check_field_filter include_deleted
      (new_query DELETED_VISIBLE_BY_FIELD "include_deleted" fresh_query) in
  let σ : gmap nat (SafeDeleteQuery Query) := {[ 0%nat := parent ]} in
  ∃ c σ',
    clone_at (λ _, new_query 99 "other" sliced_query) 0%nat σ = Some (c, σ')
    ∧ c ≠ 0%nat
    ∧ σ' !! c
      = Some (mkSafeDeleteQuery false (Some DELETED_VISIBLE)
                DELETED_VISIBLE_BY_FIELD "include_deleted" fresh_query)
    ∧ σ' !! 0%nat = Some parent
    ∧ ∃ σ'',
        calls_at (V:=bool) (λ _, new_query 99 "other" sliced_query)
          [(0%nat, CallAddQ (mkQ "name__isnull" false));
           (c, CallSetLimits None (Some 5))] σ'
        = Some σ''
        ∧ σ'' !! 0%nat
          = Some (mkSafeDeleteQuery false (Some DELETED_VISIBLE)
                    DELETED_VISIBLE_BY_FIELD "include_deleted"
                    (mkQuery [mkQ "name__isnull" false] false 0 None))
        ∧ σ'' !! c
          = Some (mkSafeDeleteQuery false (Some DELETED_VISIBLE)
                    DELETED_VISIBLE_BY_FIELD "include_deleted"
                    (mkQuery [] false 0 (Some 5))).
Proof.
  intros parent σ.
  destruct (clone_spec (V:=bool) (λ _, new_query 99 "other" sliced_query)
              σ 0%nat parent (lookup_singleton_eq 0%nat parent))
    as (c & σ' & Hclone & Hnew & Hobject & Hrest & Hcalls).
  assert (c ≠ 0%nat) as Hne.
  { intros ->. apply Hnew. unfold σ. rewrite dom_singleton.
    by apply elem_of_singleton. }
  exists c, σ'. split_and!; [exact Hclone | exact Hne | exact Hobject | |].
  - rewrite (Hrest 0%nat); [apply lookup_singleton_eq | done].
  - destruct (Hcalls [(0%nat, CallAddQ (mkQ "name__isnull" false));
                      (c, CallSetLimits None (Some 5))])
      as (σ'' & Hrun & Hparent & Hchild).
    + apply Forall_cons; split; [by left |].
      apply Forall_cons; split; [by right | constructor].
    + exists σ''. cbn [calls_of] in Hparent, Hchild.
      rewrite (decide_True (P:=(0%nat = 0%nat))) in Hparent by done.
      rewrite (decide_False (P:=(c = 0%nat))) in Hparent by done.
      rewrite (decide_False (P:=(0%nat = c))) in Hchild by done.
      rewrite (decide_True (P:=(c = c))) in Hchild by done.
      split_and!; [exact Hrun | exact Hparent | exact Hchild].
Defined.


Lemma injected_condition_stays_witness :
  let triggered :=
    check_field_filter include_deleted
      (_filter_visibility
         (new_query DELETED_VISIBLE_BY_FIELD "include_deleted" fresh_query)) in
  _safedelete_force_visibility triggered = Some DELETED_VISIBLE
  ∧ where_ (base triggered) = [mkQ "deleted__isnull" true]
  ∧ mkQ "deleted__isnull" true ∈ where_ (base (run some_calls triggered).1)
  ∧ _filter_visibility (run some_calls triggered).1
    = (run some_calls triggered).1.
Proof.
  intros triggered.
  destruct (injected_condition_stays (laws:=laws) (V:=bool))
    as (_ & _ & Hscenario).
  apply (Hscenario include_deleted some_calls "include_deleted" fresh_query
           eq_refl ltac:(evaluate)).
Defined.

Lemma visible_by_field_refines_witness :
  behaves_as_invisible "include_deleted" fresh_query
    [CallCheckFieldFilter (∅ : gmap string bool); CallSetLimits None (Some 5);
     CallGetCompiler ()]
  ∧ behaves_as_visible_after "include_deleted" fresh_query
      [CallClone; CallAddQ (mkQ "name__isnull" false)] include_deleted.
Proof.
  destruct (visible_by_field_refines (V:=bool) "include_deleted" fresh_query)
    as [Hnever Hpassed].
  split.
  - apply Hnever. reflexivity.
  - apply Hpassed; [evaluate | reflexivity].
Defined.

(** C2 as stated fails when a visibility condition went in before the
    keyword is passed: the VISIBLE_BY_FIELD query compiled once, then
    triggered, still compiles with the condition that the deleted-marker
    field is null; the VISIBLE query put through the same calls compiles
    without a condition. *)
Lemma visible_by_field_after_compile :
  is_Some (include_deleted !! "include_deleted")
  ∧ ¬ behaves_as_visible_after "include_deleted" fresh_query
        [CallGetCompiler ()] include_deleted.
Proof.
  split; [evaluate |].
  intros Hsame. specialize (Hsame [CallGetCompiler ()]).
  vm_compute in Hsame. discriminate Hsame.
Qed.

(** The scenarios of the specification, on the small host. *)

Example compile_invisible :
  (get_compiler () (new_query DELETED_INVISIBLE "include_deleted" fresh_query)).1
  = mkQuery [mkQ "deleted__isnull" true] false 0 None.
Proof. reflexivity. Qed.

Example compile_only_visible :
  (get_compiler () (new_query DELETED_ONLY_VISIBLE "include_deleted" fresh_query)).1
  = mkQuery [mkQ "deleted__isnull" false] false 0 None.
Proof. reflexivity. Qed.

Example compile_visible :
  (get_compiler () (new_query DELETED_VISIBLE "include_deleted" fresh_query)).1
  = fresh_query.
Proof. reflexivity. Qed.

Example compile_by_field_triggered :
  (run [CallCheckFieldFilter include_deleted; CallGetCompiler ()]
     (new_query DELETED_VISIBLE_BY_FIELD "include_deleted" fresh_query)).2
  = [fresh_query].
Proof. vm_compute. reflexivity. Qed.

Example compile_by_field_untriggered :
  (run [CallCheckFieldFilter (∅ : gmap string bool); CallGetCompiler ()]
     (new_query DELETED_VISIBLE_BY_FIELD "include_deleted" fresh_query)).2
  = [mkQuery [mkQ "deleted__isnull" true] false 0 None].
Proof. vm_compute. reflexivity. Qed.

(** Slicing goes through the filter first: the limited query has the
    condition, and filtering it again adds nothing. *)
Example limit_invisible :
  set_limits None (Some 5)
    (new_query DELETED_INVISIBLE "include_deleted" fresh_query)
  = mkSafeDeleteQuery true None DELETED_INVISIBLE "include_deleted"
      (mkQuery [mkQ "deleted__isnull" true] false 0 (Some 5)).
Proof. reflexivity. Qed.

Lemma filtered_query_is_transparent_witness :
  let self :=
    _filter_visibility
      (new_query DELETED_ONLY_VISIBLE "include_deleted" fresh_query) in
  _safedelete_filter_applied self = true
  ∧ base (run some_calls self).1 = (host_run some_calls (base self)).1
  ∧ (run some_calls self).2 = (host_run some_calls (base self)).2.
Proof.
  intros self. split; [reflexivity |].
  destruct (filtered_query_is_transparent some_calls self eq_refl)
    as (Hbase & Hout & _).
  exact (conj Hbase Hout).
Defined.

Lemma visible_query_is_transparent_witness :
  let self := new_query DELETED_VISIBLE "include_deleted" fresh_query in
  view (run some_calls self) = host_run some_calls fresh_query
  ∧ _safedelete_filter_applied (run some_calls self).1 = false.
Proof.
  intros self.
  destruct (visible_query_is_transparent some_calls self ltac:(evaluate))
    as (Hview & Hflag & _).
  - right. split; reflexivity.
  - exact (conj Hview Hflag).
Defined.

Lemma mode_and_keyword_fixed_witness :
  let self := new_query DELETED_INVISIBLE "include_deleted" fresh_query in
  _safedelete_visibility (run some_calls self).1 = DELETED_INVISIBLE
  ∧ _safedelete_force_visibility (run some_calls self).1 = None.
Proof.
  intros self.
  destruct (mode_and_keyword_fixed some_calls self) as (Hmode & _ & Hforce).
  split; [exact Hmode |].
  apply Hforce. left. intros Heq. vm_compute in Heq. discriminate Heq.
Defined.

Lemma trigger_then_compile_witness :
  let self :=
    new_query DELETED_VISIBLE_BY_FIELD "include_deleted" fresh_query in
  (get_compiler () (check_field_filter include_deleted self)).1 = fresh_query
  ∧ base (set_limits None (Some 5) (check_field_filter include_deleted self))
    = mkQuery [] false 0 (Some 5).
Proof.
  intros self.
  destruct (trigger_then_compile include_deleted () None (Some 5) self
              ltac:(evaluate) eq_refl ltac:(evaluate)) as [Hcompile Hlimit].
  split.
  - rewrite Hcompile. reflexivity.
  - rewrite Hlimit. reflexivity.
Defined.

Lemma check_field_filter_keys_only_witness :
  let self :=
    new_query DELETED_VISIBLE_BY_FIELD "include_deleted" fresh_query in
  check_field_filter include_deleted self
  = check_field_filter ({["include_deleted" := false]} : gmap string bool) self.
Proof.
  intros self.
  apply (check_field_filter_keys_only include_deleted
           ({["include_deleted" := false]} : gmap string bool) self).
  evaluate.
Defined.

Lemma clone_then_filter_witness :
  let self := new_query DELETED_INVISIBLE "include_deleted" fresh_query in
  where_ (base (_filter_visibility (clone self)))
  = where_ (base (_filter_visibility self)).
Proof.
  intros self. exact (proj1 (clone_then_filter (laws:=laws) self)).
Defined.

Lemma filter_visibility_noop_iff_witness :
  _filter_visibility (new_query 99 "include_deleted" fresh_query)
  = new_query 99 "include_deleted" fresh_query
  ∧ _filter_visibility
      (new_query DELETED_INVISIBLE "include_deleted" fresh_query)
    ≠ new_query DELETED_INVISIBLE "include_deleted" fresh_query.
Proof.
  split.
  - apply (proj2 (filter_visibility_noop_iff
                    (new_query 99 "include_deleted" fresh_query))).
    right; right. evaluate.
  - intros Hsame.
    destruct (proj1 (filter_visibility_noop_iff
                       (new_query DELETED_INVISIBLE "include_deleted"
                          fresh_query)) Hsame) as [Hcan | [Happ | Hmode]].
    + vm_compute in Hcan. discriminate Hcan.
    + vm_compute in Happ. discriminate Happ.
    + apply Hmode. evaluate.
Defined.

Lemma flag_means_condition_witness :
  ∃ b, isnull_q b
       ∈ where_ (base (run some_calls
                         (new_query DELETED_VISIBLE_BY_FIELD "include_deleted"
                            fresh_query)).1).
Proof.
  apply (flag_means_condition (laws:=laws) some_calls
           DELETED_VISIBLE_BY_FIELD "include_deleted" fresh_query).
  reflexivity.
Defined.

End ReferenceFacts.
